(** * The cosipbft ordering service: round orchestration and notification

    A shallow embedding of [core/ordering/cosipbft/mod.go].  The service is
    a set of goroutines that talk to collaborators (transaction pool, PBFT
    state machine, collective signing actor, RPC, synchronizer, block
    store, logger) and to each other through channels.

    - A goroutine is embedded as a tree ([Prog]) of calls into
      collaborators ([Ext]) and of statements on the channels of the
      service ([ChanOp]).
    - The collaborators and the other goroutines are the environment
      ([Env]): it answers the calls and changes the channels behind the
      back of the goroutine.  A property proved for every environment
      holds for every behaviour of the collaborators and every
      interleaving.
    - A run ([run]) yields the trace of what the goroutine did, how it
      ended (returned, waits for ever, panicked, still looping) and the
      final state.
    - The loops of [main] and [doRound] are given a number of iterations;
      a channel handed out by a collaborator stands for the values it
      delivers until it is closed. *)

From Stdlib Require Import String.
From Stdlib Require Import List ZArith Bool Lia Arith PeanoNat.
Import ListNotations.

Local Open Scope string_scope.
Local Open Scope list_scope.

Set Implicit Arguments.

(** ** Values exchanged with the collaborators *)

(** [mino.Address]; [Equal] compares two addresses. *)
Definition Address := nat.
Definition Equal (a b : Address) : bool := Nat.eqb a b.

(** [viewchange.Authority]: the ordered participants; [Len] is its size. *)
Definition Roster := list Address.
Definition Len (r : Roster) : nat := length r.

Definition Tx := nat.
Definition Signature := nat.
Definition Snapshot := nat.
Definition Genesis := nat.

(** [types.Digest] is a 32-byte array. *)
Definition Digest := list Byte.byte.
Definition DigestLength : nat := 32.
Definition zeroDigest : Digest := repeat Byte.x00 DigestLength.

(** Go's [copy(id[:], src)]: the first [min(len(src), 32)] bytes of the
    array are overwritten, the others keep their value. *)
Definition copy (dst : Digest) (src : list Byte.byte) : Digest :=
  firstn (length dst) src ++ skipn (length src) dst.

Record TransactionResult := mkResult { GetTransaction : Tx; accepted : bool }.

(** [validation.Data]. *)
Record Data := mkData { GetTransactionResults : list TransactionResult }.

(** Go errors: values coming from a collaborator, [xerrors.New] and
    [xerrors.Errorf("<context>: %v", err)]. *)
Inductive error : Type :=
| ErrExt (code : nat)
| ErrNew (msg : string)
| Errorf (context : string) (cause : error).

(** A Go pair [(value, err)] with [err != nil] exclusive of the value. *)
Definition res (A : Type) : Type := (A + error)%type.

(** [uint64] arithmetic wraps around. *)
Definition wrap64 (z : Z) : Z := (z mod 2 ^ 64)%Z.
Definition add64 (a b : Z) : Z := wrap64 (a + b).

Record Block := mkBlock {
  GetIndex : Z;
  GetData : option Data;
  GetTreeRoot : Digest;
  GetHash : Digest
}.

Record BlockLink := mkLink { GetTo : Block }.

(** [pbft.View] and [pbft.State]. *)
Record View := mkView { ID : Digest; Leader : nat }.

Inductive State : Type :=
| InitialState | PrepareState | CommitState | ViewChangeState.

Definition State_eqb (a b : State) : bool :=
  match a, b with
  | InitialState, InitialState | PrepareState, PrepareState
  | CommitState, CommitState | ViewChangeState, ViewChangeState => true
  | _, _ => false
  end.

(** [ordering.Event]. *)
Record Event := mkEvent { Index : Z }.

(** The messages built by the [types] package. *)
Inductive Message : Type :=
| NewGenesisMessage (g : Genesis)
| NewBlockMessage (b : Block)
| NewCommit (id : Digest) (sig : Signature)
| NewDone (id : Digest) (sig : Signature)
| NewViewMessage (id : Digest) (leader : nat).

(** [context.Context] values, by the way they are derived. *)
Inductive Ctx : Type :=
| Background
| WithCancel (parent : Ctx)
| WithTimeout (parent : Ctx) (d : Z).

(** [pool.Config] and [blocksync.Config]. *)
Record PoolConfig := mkPoolConfig { Min : nat }.
Record SyncConfig := mkSyncConfig { MinHard : nat }.

(** Logger calls: level, attached fields, message. *)
Inductive Level : Type := Debug | Warn | Error.
Inductive Field : Type :=
| FErr (e : error)
| FUint64 (key : string) (v : Z)
| FSig (key : string) (sig : Signature).

(** [observer] wraps the channel handed out by [Watch]; channels created
    by [Watch] are numbered. *)
Record observer := mkObserver { ch : nat }.

(** Goroutines started with a [go] statement. *)
Inductive Goroutine : Type :=
| go_main | go_watchBlocks
| go_cancel_on_closing (ctx : Ctx)
| go_remove_on_done (ctx : Ctx) (obs : observer).

(** ** Calls into collaborators

    [Ext X] is a call whose answer has type [X].  A receive-only channel
    returned by a collaborator ([rpc.Call], [pbftsm.Watch],
    [blocks.Watch]) is the sequence of values it delivers before it is
    closed.  [tree.Stage] takes a callback: the tree first decides whether
    it runs the callback and on which snapshot ([tree_Stage_enter]), and
    after the callback has run, what [Stage] returns
    ([tree_Stage_leave]). *)
Inductive Ext : Type -> Type :=
| getCurrentRoster : Ext (res Roster)
| pool_SetPlayers (r : Roster) : Ext (option error)
| pool_Remove (tx : Tx) : Ext (option error)
| pool_Gather (ctx : Ctx) (cfg : PoolConfig) : Ext (list Tx)
| pbftsm_GetLeader : Ext (res Address)
| pbftsm_Expire (addr : Address) : Ext (res View)
| pbftsm_Prepare (b : Block) : Ext (res Digest)
| pbftsm_Watch (ctx : Ctx) : Ext (list State)
| pbftsm_GetState : Ext State
| rpc_Call (ctx : Ctx) (msg : Message) (players : list Address)
    : Ext (res (list (res Message)))
| actor_Sign (ctx : Ctx) (msg : Message) (r : Roster) : Ext (res Signature)
| sync_Sync (ctx : Ctx) (r : Roster) (cfg : SyncConfig) : Ext (option error)
| blocks_Len : Ext Z
| blocks_Watch (ctx : Ctx) : Ext (list BlockLink)
| tree_Stage_enter : Ext (option Snapshot)
| tree_Stage_leave (cb : option (option error)) : Ext (res (list Byte.byte))
| val_Validate (snap : Snapshot) (txs : list Tx) : Ext (res Data)
| genesis_Get : Ext (res Genesis)
| hashFactory_digest (index : Z) (data : option Data) (root : Digest)
    : Ext (res Digest)
| watcher_Add (obs : observer) : Ext unit
| watcher_observers : Ext (list observer)
| ctx_Err (ctx : Ctx) : Ext (option error)
| cancel (ctx : Ctx) : Ext unit
| go (g : Goroutine) : Ext unit
| logger (lvl : Level) (fields : list Field) (msg : string) : Ext unit.

(** ** The channels of the service *)

(** [started], [closing] and [closed] carry no value: they are only ever
    closed, and the flag says whether that happened.  [events] and the
    channels made by [Watch] are buffered with capacity 1. *)
Record Chans := mkChans {
  started : bool;
  closing : bool;
  closed : bool;
  events : list Event;
  watch_chs : list (list Event)
}.

Definition events_cap : nat := 1.
Definition watch_cap : nat := 1.

Definition set_closing (c : Chans) : Chans :=
  mkChans (started c) true (closed c) (events c) (watch_chs c).
Definition set_closed (c : Chans) : Chans :=
  mkChans (started c) (closing c) true (events c) (watch_chs c).
Definition set_events (c : Chans) (b : list Event) : Chans :=
  mkChans (started c) (closing c) (closed c) b (watch_chs c).
Definition set_watch_chs (c : Chans) (l : list (list Event)) : Chans :=
  mkChans (started c) (closing c) (closed c) (events c) l.

Fixpoint upd_nth {A} (n : nat) (x : A) (l : list A) : list A :=
  match l, n with
  | [], _ => []
  | _ :: t, 0 => x :: t
  | h :: t, S m => h :: upd_nth m x t
  end.

(** Which case of a [select] was taken. *)
Inductive StartCase : Type := case_started | case_closing.
Inductive RoundCase : Type := case_timeout | case_events | case_round_closing.

(** Channel statements of the service.
    - [close_closing], [close_closed]: [close(s.closing)], [close(s.closed)];
    - [recv_closed]: [<-s.closed];
    - [select_start]: the first [select] of [main];
    - [select_closing_default]: [select { case <-s.closing: .. default: .. }];
    - [select_round d]: the [select] of [doRound] on [time.After(d)],
      [s.events] and [s.closing];
    - [offer_events e]: [select { case s.events <- e: default: }];
    - [send_obs o e]: [o.ch <- e];
    - [make_watch]: [make(chan ordering.Event, 1)] in [Watch]. *)
Inductive ChanOp : Type -> Type :=
| close_closing : ChanOp unit
| close_closed : ChanOp unit
| recv_closed : ChanOp unit
| select_start : ChanOp StartCase
| select_closing_default : ChanOp bool
| select_round (d : Z) : ChanOp RoundCase
| offer_events (e : Event) : ChanOp bool
| send_obs (o : observer) (e : Event) : ChanOp unit
| make_watch : ChanOp nat.

(** What the scheduler contributes to a [select]: whether the timer has
    fired, and the pseudo-random pick among the ready cases. *)
Record Sched := mkSched { timer_fired : bool; pick : nat }.

Inductive Step (X : Type) : Type :=
| Ready (x : X) (c : Chans)
| Blocked
| Panics.
Arguments Blocked {X}.
Arguments Panics {X}.

Definition choose {A} (ready : list A) (n : nat) : option A :=
  match ready with
  | [] => None
  | a :: _ => Some (nth (n mod length ready) ready a)
  end.

Definition when {A} (b : bool) (a : A) : list A := if b then [a] else [].

(** Go's channel rules: closing a closed channel panics; a receive on a
    closed channel returns at once, on an open empty one it waits; a
    [select] takes one of its ready cases, the [default] one when none is
    ready and there is a default, and waits otherwise; a send on a full
    buffered channel waits. *)
Definition chan_sem {X} (op : ChanOp X) (sch : Sched) (c : Chans) : Step X :=
  match op in ChanOp X return Step X with
  | close_closing => if closing c then Panics else Ready tt (set_closing c)
  | close_closed => if closed c then Panics else Ready tt (set_closed c)
  | recv_closed => if closed c then Ready tt c else Blocked
  | select_start =>
      match choose (when (started c) case_started
                    ++ when (closing c) case_closing) (pick sch) with
      | Some k => Ready k c
      | None => Blocked
      end
  | select_closing_default => Ready (closing c) c
  | select_round _ =>
      match choose (when (timer_fired sch) case_timeout
                    ++ when (negb (Nat.eqb (length (events c)) 0)) case_events
                    ++ when (closing c) case_round_closing) (pick sch) with
      | Some case_events => Ready case_events (set_events c (tl (events c)))
      | Some k => Ready k c
      | None => Blocked
      end
  | offer_events e =>
      if Nat.ltb (length (events c)) events_cap
      then Ready true (set_events c (events c ++ [e]))
      else Ready false c
  | send_obs o e =>
      match nth_error (watch_chs c) (ch o) with
      | Some b =>
          if Nat.ltb (length b) watch_cap
          then Ready tt (set_watch_chs c (upd_nth (ch o) (b ++ [e]) (watch_chs c)))
          else Blocked
      | None => Blocked
      end
  | make_watch =>
      Ready (length (watch_chs c)) (set_watch_chs c (watch_chs c ++ [[]]))
  end.

(** ** Goroutines as trees of calls *)

(** [Spin] stands for a loop that has used up the iterations granted to
    the model, [Crash] for a method call on a nil interface value. *)
Inductive Prog (R : Type) : Type :=
| Ret (r : R)
| Call {X : Type} (e : Ext X) (k : X -> Prog R)
| Chan {X : Type} (op : ChanOp X) (k : X -> Prog R)
| Spin
| Crash.
Arguments Spin {R}.
Arguments Crash {R}.

Fixpoint bind {A B} (p : Prog A) (f : A -> Prog B) : Prog B :=
  match p with
  | Ret a => f a
  | Call e k => Call e (fun x => bind (k x) f)
  | Chan op k => Chan op (fun x => bind (k x) f)
  | Spin => Spin
  | Crash => Crash
  end.

Definition call {X} (e : Ext X) : Prog X := Call e (fun x => Ret x).
Definition chan {X} (op : ChanOp X) : Prog X := Chan op (fun x => Ret x).

Declare Scope prog_scope.
Delimit Scope prog_scope with prog.
Notation "x <- p ;; q" := (bind p (fun x => q))
  (at level 61, p at next level, right associativity) : prog_scope.
Notation "p ;; q" := (bind p (fun _ => q))
  (at level 61, right associativity) : prog_scope.
Notation "' pat <- p ;; q" := (bind p (fun x => match x with pat => q end))
  (at level 61, pat pattern, p at next level, right associativity) : prog_scope.

(** [x, err := f(); if err != nil { return xerrors.Errorf("<context>: %v", err) }] *)
Definition orReturn {A} (context : string) (r : res A)
    (k : A -> Prog (option error)) : Prog (option error) :=
  match r with
  | inl a => k a
  | inr err => Ret (Some (Errorf context err))
  end.

(** [err := f(); if err != nil { return xerrors.Errorf("<context>: %v", err) }] *)
Definition orFail (context : string) (r : option error)
    (k : Prog (option error)) : Prog (option error) :=
  match r with
  | None => k
  | Some err => Ret (Some (Errorf context err))
  end.

Notation "x <-[ m ] p ;; q" := (bind p (fun r => orReturn m r (fun x => q)))
  (at level 61, p at next level, right associativity) : prog_scope.
Notation "'check' [ m ] p ;; q" := (bind p (fun r => orFail m r q))
  (at level 61, p at next level, right associativity) : prog_scope.
Local Open Scope prog_scope.

(** [for _, x := range l { body x }] *)
Fixpoint range {A} (l : list A) (body : A -> Prog unit) : Prog unit :=
  match l with
  | [] => Ret tt
  | x :: t => body x ;; range t body
  end.

(** ** Running a goroutine *)

(** What a goroutine did: a call with its answer; a channel statement
    with the channels before and after it; a channel statement on which it
    waits for ever; a panic. *)
Inductive Action : Type :=
| Did {X : Type} (e : Ext X) (x : X)
| OnChan {X : Type} (op : ChanOp X) (before : Chans) (x : X) (after : Chans)
| Waits {X : Type} (op : ChanOp X) (before : Chans)
| Panicked {X : Type} (op : ChanOp X) (before : Chans).

Inductive Outcome (R : Type) : Type :=
| Done (r : R)
| Stuck
| Panic
| Running.
Arguments Stuck {R}.
Arguments Panic {R}.
Arguments Running {R}.

(** The environment of a goroutine: the collaborators and the other
    goroutines.  While a call is in progress and before each channel
    statement the others run, and may change the channels; [world] answers
    a call, [others] says what happened by the time a channel statement is
    executed (for a statement that waits: by the time it can proceed, or
    for ever). *)
Record Env (W : Type) := mkEnv {
  world : forall X, Ext X -> W * Chans -> X * (W * Chans);
  others : forall X, ChanOp X -> W * Chans -> Sched * (W * Chans)
}.

Fixpoint run {W R} (env : Env W) (p : Prog R) (st : W * Chans)
  : list Action * Outcome R * (W * Chans) :=
  match p with
  | Ret r => ([], Done r, st)
  | Spin => ([], Running, st)
  | Crash => ([], Panic, st)
  | Call e k =>
      let (x, st1) := world env e st in
      let '(t, o, st2) := run env (k x) st1 in
      (Did e x :: t, o, st2)
  | Chan op k =>
      let (sch, st1) := others env op st in
      match chan_sem op sch (snd st1) with
      | Ready x c =>
          let '(t, o, st2) := run env (k x) (fst st1, c) in
          (OnChan op (snd st1) x c :: t, o, st2)
      | Blocked => ([Waits op (snd st1)], Stuck, st1)
      | Panics => ([Panicked op (snd st1)], Panic, st1)
      end
  end.

Definition trace {W R} (r : list Action * Outcome R * (W * Chans)) := fst (fst r).
Definition outcome {W R} (r : list Action * Outcome R * (W * Chans)) := snd (fst r).
Definition final {W R} (r : list Action * Outcome R * (W * Chans)) := snd r.

(** ** The service *)

(** [RoundTimeout = 10 * time.Second], in nanoseconds. *)
Definition RoundTimeout : Z := 10 * 1000000000.

(** The fields of [Service] that are plain values; the collaborators are
    reached through [Ext], the channels through [ChanOp]. *)
Record Service := mkService { me : Address; timeout : Z }.

(** [ordering.Proof]. *)
Definition Proof := nat.

(** What [NewService] puts in the service (lines 146-156): the default
    timeout, an empty [events] channel, open [closing] and [closed]. *)
Definition NewService_service (addr : Address) : Service :=
  mkService addr RoundTimeout.
Definition NewService_chans : Chans := mkChans false false false [] [].

(** [for resp := range resps { _, err = resp.GetMessageOrError();
      if err != nil { s.logger.Warn().Err(err).Msg(msg) } }] *)
Definition drain (msg : string) (resps : list (res Message)) : Prog unit :=
  range resps (fun resp =>
    match resp with
    | inr err => call (logger Warn [FErr err] msg)
    | inl _ => Ret tt
    end).

(** [GetProof] (lines 194-197). *)
Definition GetProof (s : Service) (key : list Byte.byte)
  : Prog (option Proof * option error) :=
  Ret (None, None).

(** [observer.NotifyCallback] (lines 532-534). *)
Definition NotifyCallback (obs : observer) (event : Event) : Prog unit :=
  chan (send_obs obs event).

(** Modelled from the spec: [s.watcher.Notify] belongs to the watcher of
    the processor, which is not under src/.  The event is published "to
    every external watcher (required: full fan-out, not dropped)": the
    callback of each registered observer is called in turn. *)
Definition watcher_Notify (event : Event) : Prog unit :=
  observers <- call watcher_observers ;;
  range observers (fun obs => NotifyCallback obs event).

(** [Watch] (lines 199-212). *)
Definition Watch (s : Service) (ctx : Ctx) : Prog nat :=
  c <- chan make_watch ;;
  let obs := mkObserver c in
  call (watcher_Add obs) ;;
  call (go (go_remove_on_done ctx obs)) ;;
  Ret c.

(** [Close] (lines 214-221). *)
Definition Close (s : Service) : Prog (option error) :=
  chan close_closing ;;
  chan recv_closed ;;
  Ret None.

(** [refreshRoster] (lines 261-273). *)
Definition refreshRoster (s : Service) : Prog (option error) :=
  roster <-[ "reading roster" ] call getCurrentRoster ;;
  check [ "updating tx pool" ] call (pool_SetPlayers roster) ;;
  Ret None.

(** The body of the loop of [watchBlocks] (lines 233-258). *)
Definition watchBlocks_body (s : Service) (link : BlockLink) : Prog unit :=
  match GetData (GetTo link) with
  | None => Crash
  | Some data =>
      range (GetTransactionResults data) (fun res =>
        call (pool_Remove (GetTransaction res)) ;; Ret tt) ;;
      err <- refreshRoster s ;;
      match err with
      | Some err => call (logger Error [FErr err] "roster refresh failed")
      | None => Ret tt
      end ;;
      let event := mkEvent (GetIndex (GetTo link)) in
      chan (offer_events event) ;;
      watcher_Notify event
  end.

(** [watchBlocks] (lines 223-259). *)
Definition watchBlocks (s : Service) : Prog unit :=
  let ctx := WithCancel Background in
  call (go (go_cancel_on_closing ctx)) ;;
  linkCh <- call (blocks_Watch ctx) ;;
  range linkCh (watchBlocks_body s).

(** Modelled from the spec: [roster.Diff] is not under src/.  "Diff(old,
    new) -> ChangeSet{added, removed} by set difference on addresses";
    [GetNewAddresses] returns the added ones. *)
Definition GetNewAddresses_Diff (old new : Roster) : list Address :=
  filter (fun a => negb (existsb (Equal a) old)) new.

(** [wakeUp] (lines 500-526). *)
Definition wakeUp (s : Service) (ctx : Ctx) (roster : Roster)
  : Prog (option error) :=
  newRoster <-[ "read roster failed" ] call getCurrentRoster ;;
  let changeset := GetNewAddresses_Diff roster newRoster in
  genesis <-[ "read genesis failed" ] call genesis_Get ;;
  resps <-[ "rpc failed" ]
    call (rpc_Call ctx (NewGenesisMessage genesis) changeset) ;;
  drain "wake up failed" resps ;;
  Ret None.

(** [prepareData] (lines 478-498), with its named results [data], [id]
    and [err]; the callback given to [Stage] assigns [data]. *)
Definition prepareData (s : Service) (txs : list Tx)
  : Prog (option Data * Digest * option error) :=
  snap <- call tree_Stage_enter ;;
  '(data, cb) <-
    match snap with
    | Some snap =>
        r <- call (val_Validate snap txs) ;;
        match r with
        | inl data => Ret (Some data, Some None)
        | inr err => Ret (None, Some (Some (Errorf "validation failed" err)))
        end
    | None => Ret (None, None)
    end ;;
  r <- call (tree_Stage_leave cb) ;;
  match r with
  | inr err => Ret (data, zeroDigest, Some (Errorf "staging tree failed" err))
  | inl root => Ret (data, copy zeroDigest root, None)
  end.

(** Modelled from the spec: [types.NewBlock] is not under src/.  A block
    has an index, a payload with its tree root, and a hash, "digest over
    index + payload + tree root", computed by the hash factory. *)
Definition NewBlock (data : option Data) (root : Digest) (index : Z)
  : Prog (res Block) :=
  h <- call (hashFactory_digest index data root) ;;
  match h with
  | inl digest => Ret (inl (mkBlock index data root digest))
  | inr err => Ret (inr err)
  end.

(** [doPBFT] (lines 401-476). *)
Definition doPBFT (s : Service) (ctx : Ctx) : Prog (option error) :=
  txs <- call (pool_Gather ctx (mkPoolConfig 1)) ;;
  err <- call (ctx_Err ctx) ;;
  match err with
  | Some _ => call (ctx_Err ctx)
  | None =>
      '(data, root, err) <- prepareData s txs ;;
      check [ "failed to prepare data" ] Ret err ;;
      len <- call blocks_Len ;;
      block <-[ "creating block failed" ]
        NewBlock data root (wrap64 (add64 len 1)) ;;
      id <-[ "pbft prepare failed" ] call (pbftsm_Prepare block) ;;
      roster <-[ "read roster failed" ] call getCurrentRoster ;;
      (* 1. Prepare phase *)
      let req := NewBlockMessage block in
      sig <-[ "prepare phase failed" ] call (actor_Sign ctx req roster) ;;
      call (logger Debug [FSig "signature" sig] "prepare done") ;;
      (* 2. Commit phase *)
      let commit := NewCommit id sig in
      sig <-[ "commit phase failed" ] call (actor_Sign ctx commit roster) ;;
      call (logger Debug [FSig "signature" sig] "commit done") ;;
      (* 3. Propagation phase *)
      let done := NewDone id sig in
      resps <-[ "rpc failed" ] call (rpc_Call ctx done roster) ;;
      drain "propagation failed" resps ;;
      (* 4. Wake up new participants *)
      check [ "wake up failed" ] wakeUp s ctx roster ;;
      Ret None
  end.

(** [for state != pbft.InitialState { state, more = <-statesCh;
      if !more { return "viewchange failed" } }]: whether the loop ends
    with the state back to initial. *)
Fixpoint await_initial (state : State) (statesCh : list State) : bool :=
  if State_eqb state InitialState then true
  else match statesCh with
       | [] => false
       | state' :: more => await_initial state' more
       end.

(** The loop of [doRound] (lines 322-373), with [k] iterations granted.
    [Some r]: the round returns [r] from inside the loop; [None]: the
    loop condition is false and the round goes on after the loop. *)
Fixpoint doRound_wait (s : Service) (ctx : Ctx) (roster : Roster)
    (leader : Address) (k : nat) : Prog (option (option error)) :=
  if Equal (me s) leader then Ret None
  else
    match k with
    | 0 => Spin
    | S k' =>
        c <- chan (select_round (timeout s)) ;;
        match c with
        | case_timeout =>
            call (logger Warn [] "round reached the timeout") ;;
            let ctx' := WithTimeout ctx (timeout s) in
            r <- call (pbftsm_Expire (me s)) ;;
            match r with
            | inr err =>
                call (cancel ctx') ;;
                Ret (Some (Some (Errorf "pbft expire failed" err)))
            | inl view =>
                r <- call (rpc_Call ctx'
                             (NewViewMessage (ID view) (Leader view)) roster) ;;
                match r with
                | inr err =>
                    call (cancel ctx') ;;
                    Ret (Some (Some (Errorf "rpc failed" err)))
                | inl resps =>
                    drain "view propagation failure" resps ;;
                    statesCh <- call (pbftsm_Watch ctx') ;;
                    state <- call pbftsm_GetState ;;
                    if await_initial state statesCh then
                      call (logger Debug [] "view change successful") ;;
                      call (cancel ctx') ;;
                      doRound_wait s ctx roster leader k'
                    else
                      call (cancel ctx') ;;
                      Ret (Some (Some (ErrNew "viewchange failed")))
                end
            end
        | case_events => Ret (Some None)
        | case_round_closing => Ret (Some None)
        end
    end.

(** The statements of [doRound] after the loop (lines 378-398); [ctx] is
    the context with the round timeout. *)
Definition doRound_lead (s : Service) (ctx : Ctx) (roster : Roster)
  : Prog (option error) :=
  len <- call blocks_Len ;;
  call (logger Debug [FUint64 "index" (add64 len 1)] "round has started") ;;
  check [ "sync failed" ]
    call (sync_Sync ctx roster (mkSyncConfig (Len roster))) ;;
  len <- call blocks_Len ;;
  call (logger Debug [FUint64 "index" (add64 len 1)] "pbft has started") ;;
  check [ "pbft failed" ] doPBFT s ctx ;;
  Ret None.

(** [doRound] (lines 311-399); the deferred [cancel()] runs when the
    function returns after line 376. *)
Definition doRound (s : Service) (ctx : Ctx) (k : nat) : Prog (option error) :=
  roster <-[ "reading roster" ] call getCurrentRoster ;;
  leader <-[ "reading leader" ] call pbftsm_GetLeader ;;
  w <- doRound_wait s ctx roster leader k ;;
  match w with
  | Some r => Ret r
  | None =>
      let ctx := WithTimeout ctx (timeout s) in
      r <- doRound_lead s ctx roster ;;
      call (cancel ctx) ;;
      Ret r
  end.

(** The [for] loop of [main] (lines 293-308), with [n] iterations
    granted, each round with [k] iterations of its own loop. *)
Fixpoint main_loop (s : Service) (k n : nat) : Prog (option error) :=
  match n with
  | 0 => Spin
  | S n' =>
      let ctx := WithCancel Background in
      c <- chan select_closing_default ;;
      if c : bool then
        call (cancel ctx) ;;
        Ret None
      else
        err <- doRound s ctx k ;;
        call (cancel ctx) ;;
        match err with
        | Some err => Ret (Some (Errorf "round failed" err))
        | None => main_loop s k n'
        end
  end.

(** [main] (lines 275-309). *)
Definition main (s : Service) (k n : nat) : Prog (option error) :=
  c <- chan select_start ;;
  match c with
  | case_closing => Ret None
  | case_started =>
      check [ "refreshing roster" ] refreshRoster s ;;
      call (logger Debug [] "node has started") ;;
      main_loop s k n
  end.

(** The goroutine started by [NewService] (lines 158-165). *)
Definition main_goroutine (s : Service) (k n : nat) : Prog unit :=
  err <- main s k n ;;
  match err with
  | Some err => call (logger Error [FErr err] "main loop failed")
  | None => Ret tt
  end ;;
  chan close_closed.

(** ** Scenarios: concrete environments *)

(** Every collaborator succeeds: a roster of three with node 1 leading,
    as many pending transactions as asked for, four blocks in the store. *)
Definition all_well X (e : Ext X) : X :=
  match e in Ext X return X with
  | getCurrentRoster => inl [1; 2; 3]
  | pool_SetPlayers _ => None
  | pool_Remove _ => None
  | pool_Gather _ cfg => repeat 7 (Min cfg)
  | pbftsm_GetLeader => inl 1
  | pbftsm_Expire _ => inl (mkView zeroDigest 2)
  | pbftsm_Prepare b => inl (GetHash b)
  | pbftsm_Watch _ => [ViewChangeState; InitialState]
  | pbftsm_GetState => ViewChangeState
  | rpc_Call _ m players => inl (map (fun _ => inl m) players)
  | actor_Sign _ _ _ => inl 42
  | sync_Sync _ _ _ => None
  | blocks_Len => 4%Z
  | blocks_Watch _ => []
  | tree_Stage_enter => Some 0
  | tree_Stage_leave (Some (Some err)) => inr err
  | tree_Stage_leave _ => inl [Byte.x01; Byte.x02]
  | val_Validate _ txs => inl (mkData (map (fun tx => mkResult tx true) txs))
  | genesis_Get => inl 0
  | hashFactory_digest _ _ root => inl root
  | watcher_Add _ => tt
  | watcher_observers => []
  | ctx_Err _ => None
  | cancel _ => tt
  | go _ => tt
  | logger _ _ _ => tt
  end.

(** An environment that answers the [n]-th step of the goroutine with
    [answers n], in which the other goroutines change the channels by
    [intrude n] before the [n]-th step when it is a channel statement, and
    the scheduler contributes [sched n]. *)
Definition scripted (answers : nat -> forall X, Ext X -> X)
    (sched : nat -> Sched) (intrude : nat -> Chans -> Chans) : Env nat :=
  mkEnv
    (fun X (e : Ext X) st => (answers (fst st) X e, (S (fst st), snd st)))
    (fun X (_ : ChanOp X) st =>
       (sched (fst st), (S (fst st), intrude (fst st) (snd st)))).

Definition fair : nat -> Sched := fun _ => mkSched true 0.
Definition nobody : nat -> Chans -> Chans := fun _ c => c.

(** The round's context is done: the pool gives up with an empty batch. *)
Definition context_done X (e : Ext X) : X :=
  match e in Ext X return X with
  | ctx_Err _ => Some (ErrExt 9)
  | pool_Gather _ _ => []
  | e' => all_well e'
  end.

(** The roster cannot be read. *)
Definition roster_unreadable X (e : Ext X) : X :=
  match e in Ext X return X with
  | getCurrentRoster => inr (ErrExt 1)
  | e' => all_well e'
  end.

(** The synchronization does not reach its threshold. *)
Definition sync_fails X (e : Ext X) : X :=
  match e in Ext X return X with
  | sync_Sync _ _ _ => Some (ErrExt 2)
  | e' => all_well e'
  end.

(** Two of the three peers answer an RPC with an error. *)
Definition peers_fail X (e : Ext X) : X :=
  match e in Ext X return X with
  | rpc_Call _ m _ => inl [inr (ErrExt 3); inl m; inr (ErrExt 4)]
  | e' => all_well e'
  end.

(** Two observers are registered, on the channels 0 and 1. *)
Definition two_watchers X (e : Ext X) : X :=
  match e in Ext X return X with
  | watcher_observers => [mkObserver 0; mkObserver 1]
  | e' => all_well e'
  end.

Definition round_ctx : Ctx := WithTimeout (WithCancel Background) RoundTimeout.

(** The timer of the first [select] fires; by the second one, [Close]
    has been called. *)
Definition timer_once : nat -> Sched := fun n => mkSched (Nat.eqb n 0) 0.
Definition closing_later : nat -> Chans -> Chans :=
  fun n c => if Nat.eqb n 0 then c else set_closing c.

(** The main goroutine exits while [Close] waits. *)
Definition main_exits : nat -> Chans -> Chans :=
  fun n c => if Nat.eqb n 0 then c else set_closed c.

(** A node that has received the genesis block. *)
Definition started_chans : Chans := mkChans true false false [] [].

(** The same with a pending wake-up in [events], and two watchers, the
    first of which has not read its previous event. *)
Definition busy_chans : Chans :=
  mkChans true false false [mkEvent 4] [[mkEvent 4]; []].
Definition idle_chans : Chans :=
  mkChans true false false [] [[]; []].

(** A stored link to a block of index 5 with two transactions. *)
Definition link5 : BlockLink :=
  mkLink (mkBlock 5 (Some (mkData [mkResult 7 true; mkResult 8 false]))
            zeroDigest zeroDigest).

(** ** Reading traces *)

Definition is_ok {A} (r : res A) : bool :=
  match r with inl _ => true | inr _ => false end.

(** The logger calls. *)
Definition is_log (a : Action) : bool :=
  match a with
  | Did (logger _ _ _) _ => true
  | _ => false
  end.

(** The calls of the three phases of a leader round: the collective
    signature on the block, the one on the commit, the propagation of
    [Done]; each with what it carries and with its answer. *)
Inductive PhaseCall : Type :=
| PrepareCall (b : Block) (answer : res Signature)
| CommitCall (id : Digest) (prepared : Signature) (answer : res Signature)
| FinalizeCall (id : Digest) (committed : Signature) (sent : bool).

Definition phase_of (a : Action) : option PhaseCall :=
  match a with
  | Did e x =>
      match e in Ext X return X -> option PhaseCall with
      | actor_Sign _ (NewBlockMessage b) _ => fun r => Some (PrepareCall b r)
      | actor_Sign _ (NewCommit id sig) _ => fun r => Some (CommitCall id sig r)
      | rpc_Call _ (NewDone id sig) _ => fun r => Some (FinalizeCall id sig (is_ok r))
      | _ => fun _ => None
      end x
  | _ => None
  end.

(** The batches handed to the validation service. *)
Definition validated_of (a : Action) : option (list Tx) :=
  match a with
  | Did (val_Validate _ txs) _ => Some txs
  | _ => None
  end.

Fixpoint pick_all {A B} (f : A -> option B) (l : list A) : list B :=
  match l with
  | [] => []
  | a :: t => match f a with
              | Some b => b :: pick_all f t
              | None => pick_all f t
              end
  end.

Definition phases (t : list Action) : list PhaseCall := pick_all phase_of t.
Definition validated (t : list Action) : list (list Tx) := pick_all validated_of t.

(** The blocks proposed to the PBFT state machine. *)
Definition proposed_of (a : Action) : option Block :=
  match a with
  | Did (pbftsm_Prepare b) _ => Some b
  | _ => None
  end.
Definition proposed (t : list Action) : list Block := pick_all proposed_of t.

(** The rounds started by a leader, and the selects of [doRound] that
    were taken because the timer fired. *)
Definition round_started_of (a : Action) : option Z :=
  match a with
  | Did (logger Debug [FUint64 _ index] "round has started") _ => Some index
  | _ => None
  end.
Definition rounds_started (t : list Action) : list Z := pick_all round_started_of t.

Definition timed_out (a : Action) : bool :=
  match a with
  | OnChan op _ x _ =>
      match op in ChanOp X return X -> bool with
      | select_round _ => fun c => match c with case_timeout => true | _ => false end
      | _ => fun _ => false
      end x
  | _ => false
  end.

(** The messages given to the logger. *)
Definition logged_of (a : Action) : option string :=
  match a with
  | Did (logger _ _ msg) _ => Some msg
  | _ => None
  end.
Definition logged (t : list Action) : list string := pick_all logged_of t.

(** What [drain] logs: one warning for each response that is an error. *)
Definition log_failures (msg : string) (resps : list (res Message)) : list Action :=
  flat_map (fun resp : res Message =>
              match resp with
              | inr err => [Did (logger Warn [FErr err] msg) tt]
              | inl _ => []
              end) resps.

(** The calls into collaborators, as opposed to channel statements. *)
Definition is_call (a : Action) : bool :=
  match a with
  | Did _ _ => true
  | _ => false
  end.

(** What the removal loop of [watchBlocks] does with the answers of the
    pool. *)
Definition is_removal (a : Action) : bool :=
  match a with
  | Did (pool_Remove _) _ => true
  | _ => false
  end.

(** The fan-out of an event to the observers, one after the other: each
    send appends the event to the buffer of the observer's channel; the
    flow waits on the first channel that is full, and ends when all have
    been served. *)
Inductive fanout (e : Event) : list observer -> list Action -> Outcome unit -> Prop :=
| fanout_done : fanout e [] [] (Done tt)
| fanout_send obs rest before after buf t o :
    nth_error (watch_chs before) (ch obs) = Some buf ->
    length buf < watch_cap ->
    nth_error (watch_chs after) (ch obs) = Some (buf ++ [e]) ->
    fanout e rest t o ->
    fanout e (obs :: rest) (OnChan (send_obs obs e) before tt after :: t) o
| fanout_wait obs rest before :
    (forall buf, nth_error (watch_chs before) (ch obs) = Some buf ->
                 watch_cap <= length buf) ->
    fanout e (obs :: rest) [Waits (send_obs obs e) before] Stuck.

(** ** Assumptions on the environment *)

(** [context.Context]: "after Err returns a non-nil error, successive
    calls to Err return the same error". *)
Definition sticky_Err W (env : Env W) : Prop :=
  forall ctx st e st',
    world env (ctx_Err ctx) st = (Some e, st') ->
    fst (world env (ctx_Err ctx) st') = Some e.

(** Modelled from the spec: the pool is not under src/.  "Gather(ctx,
    {min}) -> transactions (blocks until min available or ctx done)":
    when [Gather] returns, it returns [Min] transactions at least, or the
    context is done. *)
Definition Gather_waits W (env : Env W) : Prop :=
  forall ctx cfg st txs st',
    world env (pool_Gather ctx cfg) st = (txs, st') ->
    Min cfg <= length txs \/ fst (world env (ctx_Err ctx) st') <> None.

(** Go has no statement that re-opens a channel: whatever the others do,
    [closing] and [closed] stay closed once they are. *)
Definition stays_closed (c c' : Chans) : Prop :=
  (closing c = true -> closing c' = true)
  /\ (closed c = true -> closed c' = true).

Definition no_reopen W (env : Env W) : Prop :=
  (forall X (e : Ext X) st, stays_closed (snd st) (snd (snd (world env e st))))
  /\ (forall X (op : ChanOp X) st, stays_closed (snd st) (snd (snd (others env op st)))).

(** ** The rest of the service *)

(** The loop of [Setup] on the responses (lines 184-189): it returns at
    the first response that is an error. *)
Fixpoint Setup_responses (resps : list (res Message)) : Prog (option error) :=
  match resps with
  | [] => Ret None
  | inl _ :: more => Setup_responses more
  | inr err :: _ => Ret (Some (Errorf "one request failed" err))
  end.

(** [Setup] (lines 172-192).  [types.NewGenesis] is not under src/: what
    it returns for an authority is the parameter [NewGenesis]. *)
Definition Setup (s : Service) (NewGenesis : Roster -> res Genesis)
    (ctx : Ctx) (ca : Roster) : Prog (option error) :=
  genesis <-[ "creating genesis" ] Ret (NewGenesis ca) ;;
  resps <-[ "sending genesis" ] call (rpc_Call ctx (NewGenesisMessage genesis) ca) ;;
  Setup_responses resps.

(** ** More readings of traces *)

(** The first response that is an error. *)
Fixpoint first_error (resps : list (res Message)) : option error :=
  match resps with
  | [] => None
  | inl _ :: more => first_error more
  | inr err :: _ => Some err
  end.

Fixpoint Ctx_eqb (a b : Ctx) : bool :=
  match a, b with
  | Background, Background => true
  | WithCancel p, WithCancel q => Ctx_eqb p q
  | WithTimeout p d, WithTimeout q e => Ctx_eqb p q && Z.eqb d e
  | _, _ => false
  end.

(** The contexts cancelled, the events offered to [s.events], the
    transactions removed from the pool. *)
Definition cancelled_of (a : Action) : option Ctx :=
  match a with
  | Did (cancel c) _ => Some c
  | _ => None
  end.
Definition cancelled (t : list Action) : list Ctx := pick_all cancelled_of t.

Definition offered_of (a : Action) : option Event :=
  match a with
  | OnChan (offer_events e) _ _ _ => Some e
  | _ => None
  end.
Definition offered (t : list Action) : list Event := pick_all offered_of t.

Definition removed_of (a : Action) : option Tx :=
  match a with
  | Did (pool_Remove tx) _ => Some tx
  | _ => None
  end.
Definition removed (t : list Action) : list Tx := pick_all removed_of t.

(** The iterations of the loop of [main]: its [select] with [default]. *)
Definition is_iteration (a : Action) : bool :=
  match a with
  | OnChan select_closing_default _ _ _ => true
  | _ => false
  end.

(** The selects that found [closing] closed. *)
Definition saw_closing (a : Action) : bool :=
  match a with
  | OnChan op _ x _ =>
      match op in ChanOp X return X -> bool with
      | select_start => fun c => match c with case_closing => true | _ => false end
      | select_closing_default => fun c => c
      | select_round _ =>
          fun c => match c with case_round_closing => true | _ => false end
      | _ => fun _ => false
      end x
  | _ => false
  end.

(** What [doPBFT] may do: calls to the pool ([Gather] only), the
    context ([Err] only), the tree, the validation, the block store
    ([Len] only), the state machine ([Prepare] only), the roster, the
    signing actor, the RPC, the genesis store and the logger (but for the
    messages that carry an index, which are those of [doRound]). *)
Definition leader_call {X} (e : Ext X) : bool :=
  match e with
  | pool_Gather _ _ | ctx_Err _ | tree_Stage_enter | tree_Stage_leave _
  | val_Validate _ _ | blocks_Len | hashFactory_digest _ _ _
  | pbftsm_Prepare _ | getCurrentRoster | actor_Sign _ _ _
  | rpc_Call _ _ _ | genesis_Get => true
  | logger _ fields _ =>
      match fields with
      | [FUint64 _ _] => false
      | _ => true
      end
  | _ => false
  end.

Definition leader_action (a : Action) : bool :=
  match a with
  | Did e _ => leader_call e
  | _ => false
  end.

(** What [doRound] may do with the context [ctx'] of its timeout: what
    [doPBFT] may do, the other calls to the state machine, the
    synchronization, any logging, the cancellation of [ctx'] and of no
    other context, and the [select] of the round. *)
Definition round_call (ctx' : Ctx) {X} (e : Ext X) : bool :=
  match e with
  | cancel c => Ctx_eqb c ctx'
  | pbftsm_GetLeader | pbftsm_Expire _ | pbftsm_Watch _ | pbftsm_GetState
  | sync_Sync _ _ _ | logger _ _ _ => true
  | e' => leader_call e'
  end.

Definition round_action (ctx' : Ctx) (a : Action) : bool :=
  match a with
  | Did e _ => round_call ctx' e
  | OnChan op _ _ _ | Waits op _ =>
      match op with
      | select_round _ => true
      | _ => false
      end
  | Panicked _ _ => false
  end.

(** What [main] may do: any call but the removal from the pool, the
    start of a goroutine, the calls to the watcher and to the feed of the
    block store; and, on the channels, selects only. *)
Definition main_call {X} (e : Ext X) : bool :=
  match e with
  | pool_Remove _ | go _ | watcher_Add _ | watcher_observers | blocks_Watch _ => false
  | _ => true
  end.

Definition main_action (a : Action) : bool :=
  match a with
  | Did e _ => main_call e
  | OnChan op _ _ _ | Waits op _ =>
      match op with
      | select_start | select_closing_default | select_round _ => true
      | _ => false
      end
  | Panicked _ _ => false
  end.

(** The answers of the RPC calls. *)
Definition rpc_answer_of (a : Action) : option (res (list (res Message))) :=
  match a with
  | Did e x =>
      match e in Ext X return X -> option (res (list (res Message))) with
      | rpc_Call _ _ _ => fun r => Some r
      | _ => fun _ => None
      end x
  | _ => None
  end.
Definition rpc_answers (t : list Action) : list (res (list (res Message))) :=
  pick_all rpc_answer_of t.

(** The responses that carry an error. *)
Definition failures (resps : list (res Message)) : list (res Message) :=
  filter (fun r => negb (is_ok r)) resps.

(** What [Stage] returned. *)
Definition staged_of (a : Action) : option (res (list Byte.byte)) :=
  match a with
  | Did e x =>
      match e in Ext X return X -> option (res (list Byte.byte)) with
      | tree_Stage_leave _ => fun r => Some r
      | _ => fun _ => None
      end x
  | _ => None
  end.
Definition staged (t : list Action) : list (res (list Byte.byte)) :=
  pick_all staged_of t.

(** The transactions and the event of a stored link. *)
Definition link_txs (link : BlockLink) : list Tx :=
  match GetData (GetTo link) with
  | Some data => map GetTransaction (GetTransactionResults data)
  | None => []
  end.
Definition link_event (link : BlockLink) : Event :=
  mkEvent (GetIndex (GetTo link)).

(** The sends to a watcher on which the goroutine waits. *)
Definition waits_for_watcher (a : Action) : bool :=
  match a with
  | Waits (send_obs _ _) _ => true
  | _ => false
  end.

(** How many times the context [c] was cancelled. *)
Definition released (c : Ctx) (t : list Action) : nat :=
  length (filter (Ctx_eqb c) (cancelled t)).

(** The errors of [doPBFT] that are not the one of the context: an
    error of a collaborator wrapped with the step that failed. *)
Definition leader_error (e : error) : bool :=
  match e with
  | Errorf context _ =>
      existsb (String.eqb context)
        ["failed to prepare data"; "creating block failed"; "pbft prepare failed";
         "read roster failed"; "prepare phase failed"; "commit phase failed";
         "rpc failed"; "wake up failed"]
  | _ => false
  end.

(** The errors of a round: ["viewchange failed"], or an error of a
    collaborator wrapped with the step that failed. *)
Definition round_error (e : error) : bool :=
  match e with
  | ErrNew msg => String.eqb msg "viewchange failed"
  | Errorf context _ =>
      existsb (String.eqb context)
        ["reading roster"; "reading leader"; "pbft expire failed"; "rpc failed";
         "sync failed"; "pbft failed"]
  | ErrExt _ => false
  end.

(** ** More assumptions on the environment *)

(** Nobody else touches the channels of the service: no other goroutine
    reads, writes or closes them while this one runs. *)
Definition leaves_channels W (env : Env W) : Prop :=
  (forall X (e : Ext X) st, snd (snd (world env e st)) = snd st)
  /\ (forall X (op : ChanOp X) st, snd (snd (others env op st)) = snd st).

(** The timer of the round does not fire. *)
Definition timer_silent W (env : Env W) : Prop :=
  forall d st, timer_fired (fst (others env (select_round d) st)) = false.

(** [time.After] arms its timer when the [select] is entered: with a
    positive duration the timer has not fired when the [select] finds
    [closing] closed on entry, so that it is not left for the timeout. *)
Definition timer_yields W (env : Env W) : Prop :=
  forall d st, (0 < d)%Z -> closing (snd st) = true ->
    timer_fired (fst (others env (select_round d) st)) = false.

(** ** The goroutine of main and Close *)

(** The goroutine [p] besides the others: while the goroutine at hand
    waits on [closed], [p] runs as far as it goes. *)
Definition with_goroutine {W R} (env : Env W) (p : Prog R) : Env W :=
  mkEnv (world env)
    (fun X (op : ChanOp X) st =>
       match op with
       | recv_closed =>
           (fst (others env recv_closed st),
            final (run env p (snd (others env recv_closed st))))
       | _ => others env op st
       end).

(** The points at which the goroutine of [main] may be when [Close] is
    called.  [main_exit]: what the goroutine does once [main] has
    returned (lines 160-164); [loop_next]: the loop of [main] after a
    round (lines 300-306); [round_exit]: [doRound] after its loop
    (lines 375-398). *)
Definition main_exit (s : Service) (err : option error) : Prog unit :=
  match err with
  | Some err => call (logger Error [FErr err] "main loop failed")
  | None => Ret tt
  end ;;
  chan close_closed.

Definition loop_next (s : Service) (k n : nat) (err : option error)
  : Prog (option error) :=
  call (cancel (WithCancel Background)) ;;
  match err with
  | Some err => Ret (Some (Errorf "round failed" err))
  | None => main_loop s k n
  end.

Definition round_exit (s : Service) (ctx : Ctx) (roster : Roster)
    (w : option (option error)) : Prog (option error) :=
  match w with
  | Some r => Ret r
  | None =>
      let ctx := WithTimeout ctx (timeout s) in
      r <- doRound_lead s ctx roster ;;
      call (cancel ctx) ;;
      Ret r
  end.

(** The goroutine at the head of the loop of [main], with [n]
    iterations to go. *)
Definition at_loop_head (s : Service) (k n : nat) : Prog unit :=
  err <- main_loop s k n ;;
  main_exit s err.

(** The goroutine in a round, at the [select] of [doRound], with [k']
    iterations of the loop of the round to go. *)
Definition at_round_select (s : Service) (roster : Roster) (leader : Address)
    (k' k n : nat) : Prog unit :=
  err <- (err <- (w <- doRound_wait s (WithCancel Background) roster leader k' ;;
                  round_exit s (WithCancel Background) roster w) ;;
          loop_next s k n err) ;;
  main_exit s err.

(** A goroutine that, once [closing] is closed, goes on until [closed]
    is closed. *)
Definition exits_on_closing W (env : Env W) (p : Prog unit) : Prop :=
  forall st, closing (snd st) = true ->
             closed (snd (final (run env p st))) = true.

(** A goroutine that returns once [closing] is closed. *)
Definition leaves W (env : Env W) R (p : Prog R) : Prop :=
  forall st, closing (snd st) = true -> exists r, outcome (run env p st) = Done r.

(** A run that has not panicked, and waits for ever only while
    [closing] is open. *)
Definition halts_open W R (r : list Action * Outcome R * (W * Chans)) : Prop :=
  match outcome r with
  | Stuck => closing (snd (final r)) = false
  | Panic => False
  | _ => True
  end.

(** ** More scenarios *)

(** The second of three peers answers an RPC with an error. *)
Definition one_peer_fails X (e : Ext X) : X :=
  match e in Ext X return X with
  | rpc_Call _ m _ => inl [inl m; inr (ErrExt 3); inl m]
  | e' => all_well e'
  end.

(** The timer of the round never fires. *)
Definition no_timer : nat -> Sched := fun _ => mkSched false 0.

(** [Close] is called once the goroutine has made [m] steps. *)
Definition closing_after (m : nat) : nat -> Chans -> Chans :=
  fun n c => if Nat.ltb n m then c else set_closing c.

(** Two stored links, to the blocks of index 5 and 6. *)
Definition link6 : BlockLink :=
  mkLink (mkBlock 6 (Some (mkData [mkResult 9 true])) zeroDigest zeroDigest).
Definition two_links X (e : Ext X) : X :=
  match e in Ext X return X with
  | blocks_Watch _ => [link5; link6]
  | e' => all_well e'
  end.

(** The timer of the round fires at the [m]-th step and at no other. *)
Definition timer_at (m : nat) : nat -> Sched := fun n => mkSched (Nat.eqb n m) 0.

(** * Properties *)

Arguments wrap64 : simpl never.
Arguments add64 : simpl never.
Arguments copy : simpl never.
Arguments zeroDigest : simpl never.

(** ** Running composed goroutines *)

Section Runs.

Context {W : Type} (env : Env W).

Lemma run_bind A B (p : Prog A) (f : A -> Prog B) st :
  run env (bind p f) st =
  let '(t, o, st1) := run env p st in
  match o with
  | Done a => let '(t', o', st2) := run env (f a) st1 in (t ++ t', o', st2)
  | Stuck => (t, Stuck, st1)
  | Panic => (t, Panic, st1)
  | Running => (t, Running, st1)
  end.
Proof.
  revert st; induction p as [a | X e k IH | X op k IH | | ]; intros st; cbn.
  - destruct (run env (f a) st) as [[t o] st2]; reflexivity.
  - destruct (world env e st) as [x st1]. rewrite IH.
    destruct (run env (k x) st1) as [[t o] st2].
    destruct o; try reflexivity.
    destruct (run env (f r) st2) as [[t' o'] st3]; reflexivity.
  - destruct (others env op st) as [sch st1].
    destruct (chan_sem op sch (snd st1)); try reflexivity.
    rewrite IH.
    destruct (run env (k x) (fst st1, c)) as [[t o] st2].
    destruct o; try reflexivity.
    destruct (run env (f r) st2) as [[t' o'] st3]; reflexivity.
  - reflexivity.
  - reflexivity.
Qed.

(** Draining the responses of an RPC only logs, and always ends. *)
Lemma run_drain msg resps st :
  exists st', run env (drain msg resps) st = (log_failures msg resps, Done tt, st').
Proof.
  revert st; induction resps as [| resp resps IH]; intros st.
  - exists st; reflexivity.
  - unfold drain in *; cbn [range]. rewrite run_bind.
    destruct resp as [m | err]; cbn.
    + destruct (IH st) as (st' & ->). exists st'; reflexivity.
    + destruct (world env (logger Warn [FErr err] msg) st) as [[] st1].
      destruct (IH st1) as (st' & ->). exists st'; reflexivity.
Qed.

(** The removal loop of [watchBlocks] only calls the pool, and always
    ends. *)
Lemma run_removals (l : list TransactionResult) st :
  exists t st',
    run env (range l (fun res => call (pool_Remove (GetTransaction res)) ;; Ret tt)) st
    = (t, Done tt, st')
    /\ forallb is_removal t = true.
Proof.
  set (body := fun res : TransactionResult =>
                 call (pool_Remove (GetTransaction res)) ;; Ret tt).
  revert st; induction l as [| res l IH]; intros st.
  - exists [], st; split; reflexivity.
  - cbn [range]. rewrite run_bind. unfold body at 1. cbn [run bind call].
    destruct (world env (pool_Remove (GetTransaction res)) st) as [x st0].
    destruct (IH st0) as (t & st' & -> & Ht).
    exists (Did (pool_Remove (GetTransaction res)) x :: t), st'.
    split; [reflexivity | exact Ht].
Qed.

End Runs.

(** ** Reading traces *)

Lemma pick_all_app A B (f : A -> option B) (l1 l2 : list A) :
  pick_all f (l1 ++ l2) = pick_all f l1 ++ pick_all f l2.
Proof.
  induction l1 as [| a l1 IH]; cbn; [reflexivity |].
  destruct (f a); cbn; rewrite IH; reflexivity.
Qed.

Lemma pick_all_logs A (f : Action -> option A) (t : list Action) :
  (forall a, is_log a = true -> f a = None) ->
  forallb is_log t = true -> pick_all f t = [].
Proof.
  intros Hf; induction t as [| a t IH]; cbn; [reflexivity |].
  intros H; apply andb_prop in H; destruct H as [Ha Ht].
  rewrite (Hf a Ha); auto.
Qed.

Ltac not_a_log a :=
  destruct a as [X e x | | | ]; try discriminate;
  destruct e; try discriminate; reflexivity.

Lemma phase_of_log a : is_log a = true -> phase_of a = None.
Proof. not_a_log a. Qed.

Lemma validated_of_log a : is_log a = true -> validated_of a = None.
Proof. not_a_log a. Qed.

Lemma proposed_of_log a : is_log a = true -> proposed_of a = None.
Proof. not_a_log a. Qed.

Lemma log_failures_logs msg resps : forallb is_log (log_failures msg resps) = true.
Proof.
  induction resps as [| [m | err] resps IH]; cbn; auto.
Qed.

Lemma is_removal_is_call t : forallb is_removal t = true -> forallb is_call t = true.
Proof.
  induction t as [| a t IH]; cbn; [reflexivity |].
  intros H; apply andb_prop in H; destruct H as [Ha Ht].
  rewrite (IH Ht). destruct a; try discriminate; reflexivity.
Qed.

(** ** Values *)

Lemma wrap64_idem z : wrap64 (wrap64 z) = wrap64 z.
Proof. unfold wrap64. apply Z.mod_mod. lia. Qed.

Lemma wrap64_add64 a b : wrap64 (add64 a b) = add64 a b.
Proof. apply wrap64_idem. Qed.

Lemma add64_small len : (0 <= len < 2 ^ 64 - 1)%Z -> add64 len 1 = (len + 1)%Z.
Proof. intros H. unfold add64, wrap64. apply Z.mod_small. lia. Qed.

Lemma Equal_refl a : Equal a a = true.
Proof. apply Nat.eqb_refl. Qed.

(** The loop on [statesCh] ends well exactly when the initial state is
    the current one or one of those received before the channel closes. *)
Lemma await_initial_spec state statesCh :
  await_initial state statesCh = true <-> In InitialState (state :: statesCh).
Proof.
  revert state; induction statesCh as [| state' more IH]; intros state.
  - destruct state; cbn; split; auto; try discriminate.
    all: intros [H | []]; discriminate.
  - destruct state; cbn [await_initial State_eqb].
    1: split; [intros _; left; reflexivity | reflexivity].
    all: rewrite IH; split; [intros H; right; exact H |].
    all: intros [H | H]; [discriminate | exact H].
Qed.

Lemma chan_sem_offer e sch c :
  chan_sem (offer_events e) sch c
  = Ready (Nat.ltb (length (events c)) events_cap)
      (if Nat.ltb (length (events c)) events_cap
       then set_events c (events c ++ [e]) else c).
Proof. unfold chan_sem. destruct (Nat.ltb (length (events c)) events_cap); reflexivity. Qed.

Lemma nth_error_upd_nth A (l : list A) n x y :
  nth_error l n = Some y -> nth_error (upd_nth n x l) n = Some x.
Proof.
  revert n; induction l as [| h l IH]; intros [| n]; cbn; try discriminate; auto.
Qed.

(** ** Stepping through a run against an arbitrary environment *)

(** The next call is answered. *)
Ltac answer :=
  match goal with
  | |- context [world ?env ?e ?st] =>
      let x := fresh "x" in let st' := fresh "st" in let E := fresh "E" in
      destruct (world env e st) as [x st'] eqn:E
  end.

(** The responses of an RPC are drained. *)
Ltac drained :=
  repeat match goal with
  | |- context [run ?env (bind (bind ?p ?f) ?g) ?st] =>
      rewrite (run_bind env (bind p f) g st)
  end;
  match goal with
  | |- context [run ?env (bind (drain ?m ?l) ?f) ?st] =>
      let st' := fresh "st" in
      rewrite (run_bind env (drain m l) f st);
      destruct (run_drain env m l st) as (st' & ->)
  end.

(** The cases of the last answer. *)
Ltac split_answer :=
  match goal with
  | |- context [orReturn _ ?x _] => is_var x; destruct x
  | |- context [orFail _ ?x _] => is_var x; destruct x
  | |- context [match ?x with _ => _ end] => is_var x; destruct x
  end.

Ltac step := cbn; first [ drained | answer | split_answer ].

(** The others run, then the channel statement is executed. *)
Ltac scheduled :=
  match goal with
  | |- context [others ?env ?op ?st] =>
      let sch := fresh "sch" in let st' := fresh "st" in let E := fresh "E" in
      destruct (others env op st) as [sch st'] eqn:E
  end.

Ltac on_chan :=
  match goal with
  | |- context [chan_sem ?op ?sch ?c] =>
      let x := fresh "x" in let c' := fresh "c" in let E := fresh "E" in
      destruct (chan_sem op sch c) as [x c' | | ] eqn:E
  end.

(** Computes a reading of a trace that contains drained responses. *)
Ltac quiet lemma :=
  repeat first [ rewrite pick_all_app
               | rewrite (pick_all_logs _ _ lemma) by apply log_failures_logs
               | progress cbn ].

(** Finds where a trace splits as [?t0 ++ a :: ...]. *)
Ltac find_split :=
  lazymatch goal with
  | |- ?a :: ?l = ?t0 ++ ?R =>
      first [ unify t0 (@nil Action); reflexivity
            | let t' := fresh "t" in
              evar (t' : list Action);
              unify t0 (a :: t'); subst t'; cbn [app]; apply f_equal; find_split ]
  end.

Unset Implicit Arguments.

(** ** GetProof *)

(** C9 (as the code has it): whatever the key and the environment,
    [GetProof] returns a nil proof and a nil error, without calling any
    collaborator: no lookup is made and nothing is delegated to a store. *)
Theorem GetProof_returns_nil_nil W (env : Env W) (s : Service) key st :
  run env (GetProof s key) st = ([], Done (None, None), st).
Proof.
  unfold GetProof. cbn [run]. reflexivity.
Qed.

(** ** The leader: doPBFT *)

Section Leader.

Context (W : Type) (env : Env W) (s : Service).

(** [doPBFT] always returns: it calls collaborators only. *)
Lemma doPBFT_returns ctx st :
  exists t err st', run env (doPBFT s ctx) st = (t, Done err, st').
Proof.
  unfold doPBFT, prepareData, wakeUp, NewBlock.
  repeat step.
  all: cbn; do 3 eexists; reflexivity.
Qed.

Lemma prepareData_proposes_nothing txs st :
  proposed (trace (run env (prepareData s txs) st)) = [].
Proof. unfold trace, prepareData. repeat step. all: reflexivity. Qed.

(** C4: when the context of the round is alive and the data is
    prepared, [doPBFT] reads the length of the chain next and builds the
    block with that length plus one as its index, in [uint64] arithmetic
    (the length plus one below 2^64 - 1), with the data and the root
    that [prepareData] returned.  If the hash factory gives its digest,
    that block is the one proposed to the state machine, and the only
    one; and when [Prepare] and the reading of the roster succeed, it is
    the block that is signed in the prepare phase.  If the hash factory
    fails, the round fails with "creating block failed". *)
Theorem doPBFT_block_index ctx st txs st1 st2 tp data root st3 len st4 :
  world env (pool_Gather ctx (mkPoolConfig 1)) st = (txs, st1) ->
  world env (ctx_Err ctx) st1 = (None, st2) ->
  run env (prepareData s txs) st2 = (tp, Done (data, root, None), st3) ->
  world env blocks_Len st3 = (len, st4) ->
  exists h t,
    trace (run env (doPBFT s ctx) st)
    = Did (pool_Gather ctx (mkPoolConfig 1)) txs :: Did (ctx_Err ctx) None
        :: tp ++ Did blocks_Len len
        :: Did (hashFactory_digest (add64 len 1) data root) h :: t
    /\ ((0 <= len < 2 ^ 64 - 1)%Z -> add64 len 1 = (len + 1)%Z)
    /\ match h with
       | inr err =>
           t = []
           /\ outcome (run env (doPBFT s ctx) st)
              = Done (Some (Errorf "creating block failed" err))
       | inl digest =>
           proposed (trace (run env (doPBFT s ctx) st))
           = [mkBlock (add64 len 1) data root digest]
           /\ exists answer t1,
               t = Did (pbftsm_Prepare (mkBlock (add64 len 1) data root digest)) answer
                     :: t1
               /\ match answer with
                  | inr err =>
                      t1 = []
                      /\ outcome (run env (doPBFT s ctx) st)
                         = Done (Some (Errorf "pbft prepare failed" err))
                  | inl _ =>
                      exists read t2,
                        t1 = Did getCurrentRoster read :: t2
                        /\ match read with
                           | inr err =>
                               t2 = []
                               /\ outcome (run env (doPBFT s ctx) st)
                                  = Done (Some (Errorf "read roster failed" err))
                           | inl roster =>
                               exists sig t3,
                                 t2 = Did (actor_Sign ctx
                                             (NewBlockMessage
                                                (mkBlock (add64 len 1) data root digest))
                                             roster) sig :: t3
                           end
                  end
       end.
Proof.
  intros E1 E2 Hp E3.
  pose proof (prepareData_proposes_nothing txs st2) as Htp.
  rewrite Hp in Htp. cbn in Htp. unfold proposed in Htp.
  unfold trace, outcome, doPBFT.
  cbn [bind call run]. rewrite E1. cbn [bind call run]. rewrite E2.
  rewrite run_bind, Hp. cbn [orFail bind call run]. rewrite E3.
  unfold NewBlock. cbn [bind call run]. rewrite wrap64_add64.
  destruct (world env (hashFactory_digest (add64 len 1) data root) st4)
    as [[digest | err] st5].
  - unfold wakeUp. repeat step.
    all: unfold proposed;
      repeat first [ rewrite pick_all_app
                   | rewrite (pick_all_logs _ _ proposed_of_log) by apply log_failures_logs
                   | rewrite Htp
                   | progress cbn ].
    all: do 2 eexists; split; [reflexivity |]; split; [apply add64_small |].
    all: split; [reflexivity |]; do 2 eexists; split; [reflexivity |].
    all: try (split; reflexivity).
    all: do 2 eexists; split; [reflexivity |].
    all: try (split; reflexivity).
    all: do 2 eexists; reflexivity.
  - cbn. do 2 eexists. split; [reflexivity |]. split; [apply add64_small |].
    split; reflexivity.
Qed.

(** [context.Context]: an error, once returned by [Err], is returned by
    the calls that follow. *)
Hypothesis Err_is_sticky : sticky_Err env.

(** C2: in every run of [doPBFT] the calls of the three phases appear in
    the order prepare, commit, finalize, each at most once, and a phase is
    reached only if the one before it succeeded: the commit carries the
    signature obtained in the prepare phase, [Done] carries the identifier
    of the commit and the signature obtained in the commit phase.  A round
    that completes went through the three of them. *)
Theorem doPBFT_phases_in_order ctx st :
  match phases (trace (run env (doPBFT s ctx) st)) with
  | [] => outcome (run env (doPBFT s ctx) st) <> Done None
  | [PrepareCall _ (inr _)] => outcome (run env (doPBFT s ctx) st) <> Done None
  | [PrepareCall _ (inl sig1); CommitCall _ sig (inr _)] =>
      sig = sig1 /\ outcome (run env (doPBFT s ctx) st) <> Done None
  | [PrepareCall _ (inl sig1); CommitCall id sig (inl sig2);
     FinalizeCall id' sig' sent] =>
      sig = sig1 /\ id' = id /\ sig' = sig2
      /\ (outcome (run env (doPBFT s ctx) st) = Done None -> sent = true)
  | _ => False
  end.
Proof.
  unfold trace, outcome, doPBFT.
  step. step. destruct x0 as [e |].
  - pose proof (Err_is_sticky _ _ _ _ E0) as H. step. cbn in H. subst. cbn.
    discriminate.
  - unfold prepareData, wakeUp, NewBlock.
    repeat step.
    all: unfold phases; quiet phase_of_log.
    all: repeat split; try reflexivity; try discriminate.
Qed.

(** The pool: [Gather] returns with [Min] transactions unless the
    context is done. *)
Hypothesis Gather_contract : Gather_waits env.

(** C8: [doPBFT] first gathers from the pool with [Min: 1] under the
    round's context, then asks the context for its error.  If the
    context is done, the round returns the context error and does
    nothing else: no validation, no PBFT.  Otherwise the batch holds at
    least one transaction, and it is the only batch handed to
    validation. *)
Theorem doPBFT_gathers_then_checks_context ctx st :
  exists txs err t,
    trace (run env (doPBFT s ctx) st)
    = Did (pool_Gather ctx (mkPoolConfig 1)) txs :: Did (ctx_Err ctx) err :: t
    /\ match err with
       | Some e => t = [Did (ctx_Err ctx) (Some e)]
                   /\ outcome (run env (doPBFT s ctx) st) = Done (Some e)
       | None => 1 <= length txs /\ Forall (eq txs) (validated t)
       end.
Proof.
  unfold trace, outcome, doPBFT.
  step. step. destruct x0 as [e |].
  - pose proof (Err_is_sticky _ _ _ _ E0) as H. step. cbn in H. subst. cbn.
    exists x, (Some e). eexists. split; [reflexivity |]. split; reflexivity.
  - exists x, None.
    destruct (Gather_contract _ _ _ _ _ E) as [Hm | Hm];
      [| rewrite E0 in Hm; cbn in Hm; congruence].
    cbn in Hm. unfold prepareData, wakeUp, NewBlock.
    repeat step.
    all: cbn; eexists; (split; [reflexivity |]); (split; [assumption |]).
    all: unfold validated; quiet validated_of_log; repeat constructor.
Qed.

End Leader.

Arguments doPBFT : simpl never.
Arguments chan_sem : simpl never.

(** ** The round: doRound *)

Section Round.

Context (W : Type) (env : Env W) (s : Service) (ctx : Ctx).

Lemma doRound_wait_leader roster leader k :
  Equal (me s) leader = true -> doRound_wait s ctx roster leader k = Ret None.
Proof. intros H; destruct k; cbn; rewrite H; reflexivity. Qed.

(** C6: in a round that the node leads, the first thing done after the
    round has started is the synchronization, with the round's context,
    the current roster and [MinHard] equal to the size of that roster.
    If it fails the round returns "sync failed" and PBFT is not started;
    otherwise [doPBFT] runs next. *)
Theorem doRound_leader_syncs_first k st roster st1 st2 :
  world env getCurrentRoster st = (inl roster, st1) ->
  world env pbftsm_GetLeader st1 = (inl (me s), st2) ->
  exists len failed t,
    trace (run env (doRound s ctx k) st)
    = Did getCurrentRoster (inl roster)
        :: Did pbftsm_GetLeader (inl (me s))
        :: Did blocks_Len len
        :: Did (logger Debug [FUint64 "index" (add64 len 1)] "round has started") tt
        :: Did (sync_Sync (WithTimeout ctx (timeout s)) roster
                  (mkSyncConfig (length roster))) failed
        :: t
    /\ match failed with
       | Some err =>
           t = [Did (cancel (WithTimeout ctx (timeout s))) tt]
           /\ outcome (run env (doRound s ctx k) st)
              = Done (Some (Errorf "sync failed" err))
       | None =>
           exists len' st3,
             t = Did blocks_Len len'
                   :: Did (logger Debug [FUint64 "index" (add64 len' 1)]
                             "pbft has started") tt
                   :: trace (run env (doPBFT s (WithTimeout ctx (timeout s))) st3)
                   ++ [Did (cancel (WithTimeout ctx (timeout s))) tt]
       end.
Proof.
  intros E1 E2. unfold trace, outcome, doRound.
  cbn. rewrite E1. cbn. rewrite E2. cbn.
  rewrite run_bind, (doRound_wait_leader roster (me s) k (Equal_refl _)).
  unfold doRound_lead.
  step. step. destruct x0. step. destruct x0 as [err |].
  - step. destruct x0. cbn. exists x, (Some err). eexists.
    split; [reflexivity |]. split; reflexivity.
  - step. step. destruct x1. cbn.
    repeat match goal with
    | |- context [run env (bind ?p ?f) ?st] => rewrite (run_bind env p f st)
    end.
    match goal with
    | |- context [run env (doPBFT s ?c) ?st'] =>
        destruct (doPBFT_returns W env s c st') as (t & err & st'' & Hrun);
        rewrite Hrun; destruct err as [err |]; cbn;
        (step; destruct x1; cbn; rewrite app_nil_r;
         exists x, None; eexists; split; [reflexivity |];
         exists x0, st'; rewrite Hrun; reflexivity)
    end.
Qed.


(** The leader is read once, before the loop: a node that is not the
    leader then does not become the leader in that round, and the loop is
    only left by a return. *)
Lemma doRound_wait_follower roster leader k st :
  Equal (me s) leader = false ->
  outcome (run env (doRound_wait s ctx roster leader k) st) <> Done None.
Proof.
  intros Hl. revert st. induction k as [| k IH]; intros st;
    unfold outcome in *; cbn [doRound_wait]; rewrite Hl.
  - discriminate.
  - cbn. scheduled. on_chan; try discriminate.
    destruct x; cbn; try discriminate.
    step. destruct x. step. destruct x as [view | err].
    + step. destruct x as [resps | err].
      * step. step. step.
        destruct (await_initial x0 x).
        -- step. destruct x1. step. destruct x1.
           match goal with
           | |- context [run env (doRound_wait s ctx roster leader k) ?st9] =>
               specialize (IH st9);
               destruct (run env (doRound_wait s ctx roster leader k) st9)
                 as [[t' o'] st']
           end.
           exact IH.
        -- step. discriminate.
      * step. discriminate.
    + step. discriminate.
Qed.

End Round.

Arguments doRound : simpl never.
Arguments refreshRoster : simpl never.

(** ** The main loop *)

Section MainLoop.

Context (W : Type) (env : Env W) (s : Service).

Lemma main_loop_errors k n st e :
  outcome (run env (main_loop s k n) st) = Done (Some e) ->
  exists cause, e = Errorf "round failed" cause.
Proof.
  revert st; induction n as [| n IH]; intros st; unfold outcome in *; cbn.
  - discriminate.
  - scheduled. unfold chan_sem. cbn. destruct (closing (snd st0)).
    + step. discriminate.
    + rewrite run_bind.
      destruct (run env (doRound s (WithCancel Background) k) (fst st0, snd st0))
        as [[t o] st1].
      destruct o as [err | | | ]; try discriminate.
      step. destruct err as [err |]; cbn.
      * intros H; injection H as <-. eexists; reflexivity.
      * specialize (IH st2).
        destruct (run env (main_loop s k n) st2) as [[t' o'] st3].
        exact IH.
Qed.

(** C1 (as the code has it): when a round returns an error, the main
    loop cancels the context of the round and returns the error wrapped
    as "round failed"; no other round is started.  The errors on which
    [main] ends are the failure to refresh the roster at start-up and
    the failure of a round, whatever its cause. *)
Theorem main_stops_on_round_failure k :
  (forall n st sch w1 c1 t err st2,
      others env select_closing_default st = (sch, (w1, c1)) ->
      closing c1 = false ->
      run env (doRound s (WithCancel Background) k) (w1, c1)
      = (t, Done (Some err), st2) ->
      run env (main_loop s k (S n)) st
      = (OnChan select_closing_default c1 false c1
           :: t ++ [Did (cancel (WithCancel Background)) tt],
         Done (Some (Errorf "round failed" err)),
         snd (world env (cancel (WithCancel Background)) st2)))
  /\ (forall n st e,
         outcome (run env (main s k n) st) = Done (Some e) ->
         exists cause,
           e = Errorf "refreshing roster" cause \/ e = Errorf "round failed" cause).
Proof.
  split.
  - intros n st sch w1 c1 t err st2 E Hc Hrun.
    cbn. rewrite E. unfold chan_sem. cbn. rewrite Hc.
    rewrite run_bind, Hrun. step. destruct x. reflexivity.
  - intros n st e. unfold outcome, main. cbn.
    scheduled. on_chan; try discriminate.
    destruct x; cbn; [| discriminate].
    rewrite run_bind.
    destruct (run env (refreshRoster s) (fst st0, c)) as [[t o] st1].
    destruct o as [[err |] | | | ]; cbn; try discriminate.
    + intros H; injection H as <-. eexists; left; reflexivity.
    + step.
      pose proof (main_loop_errors k n st2 e) as H.
      unfold outcome in H.
      destruct (run env (main_loop s k n) st2) as [[t' o'] st3].
      cbn in *. intros H'. destruct (H H') as (cause & ->).
      eexists; right; reflexivity.
Qed.

(** C7 (as the code has it): when the roster cannot be read,
    [refreshRoster] returns without touching the pool, which keeps the
    signers of the last refresh.  In the notification flow a failure of
    [refreshRoster] is logged and the flow goes on with the publication
    of the event.  At the start of [main] it is fatal: [main] returns
    "refreshing roster" and runs no round. *)
Theorem refreshRoster_failure :
  (forall st e st1,
      world env getCurrentRoster st = (inr e, st1) ->
      run env (refreshRoster s) st
      = ([Did getCurrentRoster (inr e)],
         Done (Some (Errorf "reading roster" e)), st1))
  /\ (forall link data st,
         GetData (GetTo link) = Some data ->
         exists removals st1,
           forallb is_removal removals = true
           /\ forall t err st2,
               run env (refreshRoster s) st1 = (t, Done (Some err), st2) ->
               run env (watchBlocks_body s link) st
               = let '(t', o, st3) :=
                   run env (chan (offer_events (mkEvent (GetIndex (GetTo link)))) ;;
                            watcher_Notify (mkEvent (GetIndex (GetTo link))))
                     (snd (world env (logger Error [FErr err] "roster refresh failed") st2))
                 in (removals ++ t
                       ++ Did (logger Error [FErr err] "roster refresh failed") tt :: t',
                     o, st3))
  /\ (forall k n st sch w1 c1 c t err st2,
         others env select_start st = (sch, (w1, c1)) ->
         chan_sem select_start sch c1 = Ready case_started c ->
         run env (refreshRoster s) (w1, c) = (t, Done (Some err), st2) ->
         run env (main s k n) st
         = (OnChan select_start c1 case_started c :: t,
            Done (Some (Errorf "refreshing roster" err)), st2)).
Proof.
  split; [| split].
  - intros st e st1 E. unfold refreshRoster. cbn. rewrite E. reflexivity.
  - intros link data st Hd. unfold watchBlocks_body. rewrite Hd.
    destruct (run_removals env (GetTransactionResults data) st)
      as (removals & st1 & Hrm & Hall).
    exists removals, st1. split; [exact Hall |].
    intros t err st2 Hrf. cbv zeta.
    set (P := chan (offer_events _) ;; watcher_Notify _).
    rewrite run_bind, Hrm, run_bind, Hrf, run_bind.
    cbn [call run].
    destruct (world env (logger Error [FErr err] "roster refresh failed") st2)
      as [[] st3].
    cbn [snd]. destruct (run env P st3) as [[t' o] st4].
    reflexivity.
  - intros k n st sch w1 c1 c t err st2 E Hsem Hrf.
    unfold main. cbn. rewrite E. cbn. rewrite Hsem.
    rewrite run_bind. cbn. rewrite Hrf. cbn. rewrite app_nil_r. reflexivity.
Qed.

End MainLoop.

(** ** The notification flow *)

Section Notification.

Context (W : Type) (env : Env W) (s : Service).

(** The calls of [NotifyCallback] made by [Notify], one observer after
    the other. *)
Lemma run_Notify_fanout event observers st t o st' :
  run env (range observers (fun obs => NotifyCallback obs event)) st = (t, o, st') ->
  fanout event observers t o.
Proof.
  set (body := fun obs : observer => NotifyCallback obs event).
  revert st t o st'; induction observers as [| obs rest IH]; intros st t o st'.
  - cbn. intros H; injection H as <- <- _. constructor.
  - cbn [range]. rewrite run_bind.
    unfold body at 1, NotifyCallback. cbn [chan run].
    scheduled. unfold chan_sem.
    destruct (nth_error (watch_chs (snd st0)) (ch obs)) as [buf |] eqn:Hb.
    + destruct (Nat.ltb (length buf) watch_cap) eqn:Hl.
      * cbn [fst snd].
        destruct (run env (range rest body) _) as [[t1 o1] st1] eqn:Hrun.
        cbn. intros H; injection H as <- <- _.
        eapply fanout_send;
          [ exact Hb | apply Nat.ltb_lt; exact Hl
          | cbn; eapply nth_error_upd_nth; exact Hb | eapply IH; exact Hrun ].
      * cbn. intros H; injection H as <- <- _.
        apply fanout_wait. intros buf' Hb'.
        rewrite Hb in Hb'. injection Hb' as <-.
        apply Nat.ltb_ge; exact Hl.
    + cbn. intros H; injection H as <- <- _.
      apply fanout_wait. intros buf' Hb'. rewrite Hb in Hb'. discriminate.
Qed.

(** C5: for a stored link, after the pool and the roster have been
    dealt with by calls only, the event of the link is offered to
    [events] without waiting: it is appended if the buffer has room and
    dropped, the channel left as it is, if the previous event is still
    there.  Then the observers registered with the watcher are served in
    turn: each gets the event at the end of the buffer of its channel,
    and the flow waits on an observer whose channel is full; none is
    skipped. *)
Theorem watchBlocks_publishes link data st :
  GetData (GetTo link) = Some data ->
  exists t0 before sent after observers t1,
    trace (run env (watchBlocks_body s link) st)
    = t0 ++ OnChan (offer_events (mkEvent (GetIndex (GetTo link)))) before sent after
         :: Did watcher_observers observers :: t1
    /\ forallb is_call t0 = true
    /\ sent = Nat.ltb (length (events before)) events_cap
    /\ after = (if sent
                then set_events before (events before ++ [mkEvent (GetIndex (GetTo link))])
                else before)
    /\ fanout (mkEvent (GetIndex (GetTo link))) observers t1
         (outcome (run env (watchBlocks_body s link) st)).
Proof.
  intros Hd. unfold watchBlocks_body. rewrite Hd. cbv zeta.
  set (event := mkEvent (GetIndex (GetTo link))).
  destruct (run_removals env (GetTransactionResults data) st)
    as (removals & st1 & Hrm & Hall).
  apply is_removal_is_call in Hall.
  unfold trace, outcome. rewrite run_bind, Hrm, run_bind.
  assert (Hrf : exists t err st2,
             run env (refreshRoster s) st1 = (t, Done err, st2)
             /\ forallb is_call t = true).
  { unfold refreshRoster. repeat step. all: cbn; do 3 eexists; split; reflexivity. }
  destruct Hrf as (t & err & st2 & -> & Ht).
  rewrite run_bind.
  assert (Hlog : exists tl st3,
             run env (match err with
                      | Some err => call (logger Error [FErr err] "roster refresh failed")
                      | None => Ret tt
                      end) st2 = (tl, Done tt, st3)
             /\ forallb is_call tl = true).
  { destruct err; cbn; [answer; destruct x |]; do 2 eexists; split; reflexivity. }
  destruct Hlog as (tl & st3 & -> & Htl).
  rewrite run_bind. cbn [chan run]. scheduled. rewrite chan_sem_offer.
  unfold watcher_Notify. cbn [bind call run]. answer.
  destruct (run env (range x (fun obs => NotifyCallback obs event)) st4)
    as [[t1 o] st5] eqn:Hrun.
  apply run_Notify_fanout in Hrun.
  cbn in *.
  exists (removals ++ t ++ tl), (snd st0). do 2 eexists. exists x, t1.
  split; [rewrite <- !app_assoc; reflexivity |].
  split; [rewrite !forallb_app, Hall, Ht, Htl; reflexivity |].
  split; [reflexivity |]. split; [reflexivity |]. exact Hrun.
Qed.

End Notification.

(** ** Shutdown *)

Arguments main : simpl never.

Lemma main_goroutine_exit s k n :
  main_goroutine s k n = (err <- main s k n ;; main_exit s err).
Proof. reflexivity. Qed.

Lemma main_loop_next s k n :
  main_loop s k (S n)
  = (c <- chan select_closing_default ;;
     if c : bool then call (cancel (WithCancel Background)) ;; Ret None
     else err <- doRound s (WithCancel Background) k ;; loop_next s k n err).
Proof. reflexivity. Qed.

Lemma doRound_exit s ctx k :
  doRound s ctx k
  = (roster <-[ "reading roster" ] call getCurrentRoster ;;
     leader <-[ "reading leader" ] call pbftsm_GetLeader ;;
     w <- doRound_wait s ctx roster leader k ;;
     round_exit s ctx roster w).
Proof. reflexivity. Qed.

Lemma choose_In A (l : list A) n x : choose l n = Some x -> In x l.
Proof.
  destruct l as [| a l]; [discriminate |].
  intros H.
  assert (E : choose (a :: l) n = Some (nth (n mod length (a :: l)) (a :: l) a))
    by reflexivity.
  assert (Hx : x = nth (n mod length (a :: l)) (a :: l) a) by congruence.
  rewrite Hx. apply nth_In. apply Nat.mod_upper_bound. discriminate.
Qed.

Lemma choose_some A (l : list A) n : l <> [] -> exists x, choose l n = Some x.
Proof. destruct l; [congruence |]. intros _. eexists; reflexivity. Qed.

Lemma chan_sem_stays_closed X (op : ChanOp X) sch c x c' :
  chan_sem op sch c = Ready x c' -> stays_closed c c'.
Proof.
  unfold chan_sem, stays_closed.
  destruct op; intros H;
    repeat match type of H with
    | context [if ?b then _ else _] => destruct b eqn:?
    | context [match ?o with Some _ => _ | None => _ end] => destruct o eqn:?
    | context [match ?r with case_timeout => _ | _ => _ end] => destruct r
    end;
    try discriminate; injection H as _ <-; cbn; auto.
Qed.

Create HintDb leaves.

Section Shutdown.

Context (W : Type) (env : Env W) (s : Service).

(** A closed channel stays closed. *)
Hypothesis closed_for_good : no_reopen env.

(** Whatever a goroutine does, [closing] and [closed] stay closed. *)
Lemma run_stays_closed R (p : Prog R) st :
  stays_closed (snd st) (snd (final (run env p st))).
Proof.
  destruct closed_for_good as [Hw Ho].
  assert (Htrans : forall a b c, stays_closed a b -> stays_closed b c -> stays_closed a c).
  { unfold stays_closed. intros a b c [H1 H2] [H3 H4]. auto. }
  revert st; induction p as [a | X e k IH | X op k IH | | ]; intros st;
    unfold final in *; cbn [run].
  - split; auto.
  - pose proof (Hw _ e st) as H. destruct (world env e st) as [x st1].
    specialize (IH x st1). destruct (run env (k x) st1) as [[t o] st2].
    cbn in *. eapply Htrans; eassumption.
  - pose proof (Ho _ op st) as H. destruct (others env op st) as [sch st1].
    cbn [snd] in H.
    destruct (chan_sem op sch (snd st1)) as [x c | | ] eqn:Hsem; cbn; try exact H.
    apply chan_sem_stays_closed in Hsem.
    specialize (IH x (fst st1, c)). destruct (run env (k x) (fst st1, c)) as [[t o] st2].
    cbn in *. eapply Htrans; [exact H |]. eapply Htrans; eassumption.
  - split; auto.
  - split; auto.
Qed.

Lemma run_keeps_closing R (p : Prog R) st :
  closing (snd st) = true -> closing (snd (final (run env p st))) = true.
Proof. apply (proj1 (run_stays_closed R p st)). Qed.

Lemma leaves_bind A B (p : Prog A) (f : A -> Prog B) :
  leaves env p -> (forall a, leaves env (f a)) -> leaves env (bind p f).
Proof.
  intros Hp Hf st Hc. unfold outcome. rewrite run_bind.
  destruct (Hp st Hc) as (a & Ha).
  pose proof (run_keeps_closing A p st Hc) as Hk.
  unfold outcome, final in *.
  destruct (run env p st) as [[t o] st1]. cbn in Ha, Hk. subst o.
  destruct (Hf a st1 Hk) as (b & Hb). unfold outcome in Hb.
  destruct (run env (f a) st1) as [[t' o'] st2]. cbn in *. eauto.
Qed.

Lemma leaves_call X (e : Ext X) : leaves env (call e).
Proof.
  intros st _. unfold outcome. cbn. destruct (world env e st). eexists; reflexivity.
Qed.

Lemma leaves_Ret A (a : A) : leaves env (Ret a).
Proof. intros st _. eexists; reflexivity. Qed.

Lemma leaves_doPBFT ctx : leaves env (doPBFT s ctx).
Proof.
  intros st _. destruct (doPBFT_returns W env s ctx st) as (t & err & st' & ->).
  eexists; reflexivity.
Qed.

Lemma leaves_drain msg resps : leaves env (drain msg resps).
Proof.
  intros st _. destruct (run_drain env msg resps st) as (st' & ->).
  eexists; reflexivity.
Qed.

#[local] Hint Resolve leaves_bind leaves_call leaves_Ret leaves_doPBFT leaves_drain
  : leaves.

Lemma leaves_doRound_lead ctx roster : leaves env (doRound_lead s ctx roster).
Proof.
  unfold doRound_lead.
  apply leaves_bind; [auto with leaves | intros len].
  apply leaves_bind; [auto with leaves | intros _].
  apply leaves_bind; [auto with leaves | intros [err |]];
    cbn [orFail]; [auto with leaves |].
  apply leaves_bind; [auto with leaves | intros len'].
  apply leaves_bind; [auto with leaves | intros _].
  apply leaves_bind; [auto with leaves | intros [err |]];
    cbn [orFail]; auto with leaves.
Qed.

Lemma leaves_round_exit ctx roster w : leaves env (round_exit s ctx roster w).
Proof.
  destruct w as [r |]; cbn [round_exit]; [auto with leaves |].
  apply leaves_bind; [apply leaves_doRound_lead | intros].
  apply leaves_bind; auto with leaves.
Qed.

(** [time.After] is armed when the [select] is entered, for a positive
    time. *)
Hypothesis timer_armed : timer_yields env.
Hypothesis timeout_positive : (0 < timeout s)%Z.

(** The [select] of a round that is entered while [closing] is closed
    is left at once, for [closing] or for an event. *)
Lemma select_round_on_closing st (f : RoundCase -> Prog (option (option error))) :
  closing (snd st) = true ->
  f case_events = Ret (Some None) ->
  f case_round_closing = Ret (Some None) ->
  outcome (run env (c <- chan (select_round (timeout s)) ;; f c) st) = Done (Some None).
Proof.
  intros Hc He Hcl. destruct closed_for_good as [_ Ho].
  unfold outcome. cbn [bind chan run].
  pose proof (timer_armed (timeout s) st timeout_positive Hc) as Ht.
  pose proof (proj1 (Ho _ (select_round (timeout s)) st) Hc) as Hc'.
  destruct (others env (select_round (timeout s)) st) as [sch st0].
  cbn [fst snd] in Ht, Hc'.
  unfold chan_sem. rewrite Ht, Hc'. cbn [when app].
  destruct (choose_some _ (when (negb (Nat.eqb (length (events (snd st0))) 0)) case_events
                            ++ [case_round_closing]) (pick sch)) as (x & Hx).
  { destruct (when _ _); discriminate. }
  unfold when in *. cbn [app] in Hx. rewrite Hx.
  apply choose_In in Hx.
  assert (Hx' : x = case_events \/ x = case_round_closing).
  { apply in_app_or in Hx. destruct Hx as [Hx | [Hx | []]]; [| auto].
    destruct (negb _); [destruct Hx as [Hx | []]; auto | destruct Hx]. }
  destruct Hx' as [-> | ->]; cbn; [rewrite He | rewrite Hcl]; reflexivity.
Qed.

Lemma doRound_wait_on_closing ctx roster leader k st :
  closing (snd st) = true ->
  exists r, outcome (run env (doRound_wait s ctx roster leader (S k)) st) = Done r.
Proof.
  intros Hc. cbn [doRound_wait]. destruct (Equal (me s) leader).
  - eexists; reflexivity.
  - eexists. apply (select_round_on_closing st
       (fun c => match c with
                 | case_timeout => _
                 | case_events => Ret (Some None)
                 | case_round_closing => Ret (Some None)
                 end) Hc); reflexivity.
Qed.

(** The loop of a round: once [closing] is closed it is left, after one
    more change of view at most, which is the one of a [select] that the
    timer and [Close] end together. *)
Lemma leaves_doRound_wait ctx roster leader k :
  leaves env (doRound_wait s ctx roster leader (S (S k))).
Proof.
  intros st Hc.
  change (doRound_wait s ctx roster leader (S (S k)))
    with (if Equal (me s) leader then Ret None
          else c <- chan (select_round (timeout s)) ;;
               match c with
               | case_timeout =>
                   call (logger Warn [] "round reached the timeout") ;;
                   r <- call (pbftsm_Expire (me s)) ;;
                   match r with
                   | inr err =>
                       call (cancel (WithTimeout ctx (timeout s))) ;;
                       Ret (Some (Some (Errorf "pbft expire failed" err)))
                   | inl view =>
                       r <- call (rpc_Call (WithTimeout ctx (timeout s))
                                    (NewViewMessage (ID view) (Leader view)) roster) ;;
                       match r with
                       | inr err =>
                           call (cancel (WithTimeout ctx (timeout s))) ;;
                           Ret (Some (Some (Errorf "rpc failed" err)))
                       | inl resps =>
                           drain "view propagation failure" resps ;;
                           statesCh <- call (pbftsm_Watch (WithTimeout ctx (timeout s))) ;;
                           state <- call pbftsm_GetState ;;
                           if await_initial state statesCh then
                             call (logger Debug [] "view change successful") ;;
                             call (cancel (WithTimeout ctx (timeout s))) ;;
                             doRound_wait s ctx roster leader (S k)
                           else
                             call (cancel (WithTimeout ctx (timeout s))) ;;
                             Ret (Some (Some (ErrNew "viewchange failed")))
                       end
                   end
               | case_events => Ret (Some None)
               | case_round_closing => Ret (Some None)
               end).
  destruct (Equal (me s) leader); [eexists; reflexivity |].
  destruct closed_for_good as [_ Ho].
  unfold outcome. cbn [bind chan run].
  pose proof (proj1 (Ho _ (select_round (timeout s)) st) Hc) as Hc'.
  destruct (others env (select_round (timeout s)) st) as [sch st0].
  cbn [snd] in Hc'.
  destruct (chan_sem (select_round (timeout s)) sch (snd st0)) as [x c | | ] eqn:Hsem.
  - pose proof (proj1 (chan_sem_stays_closed _ _ _ _ _ _ Hsem) Hc') as Hc''.
    assert (Hrest : leaves env
              (match x with
               | case_timeout =>
                   call (logger Warn [] "round reached the timeout") ;;
                   r <- call (pbftsm_Expire (me s)) ;;
                   match r with
                   | inr err =>
                       call (cancel (WithTimeout ctx (timeout s))) ;;
                       Ret (Some (Some (Errorf "pbft expire failed" err)))
                   | inl view =>
                       r <- call (rpc_Call (WithTimeout ctx (timeout s))
                                    (NewViewMessage (ID view) (Leader view)) roster) ;;
                       match r with
                       | inr err =>
                           call (cancel (WithTimeout ctx (timeout s))) ;;
                           Ret (Some (Some (Errorf "rpc failed" err)))
                       | inl resps =>
                           drain "view propagation failure" resps ;;
                           statesCh <- call (pbftsm_Watch (WithTimeout ctx (timeout s))) ;;
                           state <- call pbftsm_GetState ;;
                           if await_initial state statesCh then
                             call (logger Debug [] "view change successful") ;;
                             call (cancel (WithTimeout ctx (timeout s))) ;;
                             doRound_wait s ctx roster leader (S k)
                           else
                             call (cancel (WithTimeout ctx (timeout s))) ;;
                             Ret (Some (Some (ErrNew "viewchange failed")))
                       end
                   end
               | case_events => Ret (Some None)
               | case_round_closing => Ret (Some None)
               end)).
    { destruct x; [| auto with leaves | auto with leaves].
      apply leaves_bind; [auto with leaves | intros _].
      apply leaves_bind; [auto with leaves | intros [view | err]];
        [| auto with leaves].
      apply leaves_bind; [auto with leaves | intros [resps | err]];
        [| auto with leaves].
      apply leaves_bind; [auto with leaves | intros _].
      apply leaves_bind; [auto with leaves | intros statesCh].
      apply leaves_bind; [auto with leaves | intros state].
      destruct (await_initial state statesCh); [| auto with leaves].
      apply leaves_bind; [auto with leaves | intros _].
      apply leaves_bind; [auto with leaves | intros _].
      intros st' Hst'. apply doRound_wait_on_closing. exact Hst'. }
    destruct (Hrest (fst st0, c) Hc'') as (r & Hr). unfold outcome in Hr.
    destruct (run env _ (fst st0, c)) as [[t o] st2]. cbn in *. eauto.
  - exfalso. unfold chan_sem in Hsem. rewrite Hc' in Hsem.
    destruct (choose_some _ (when (timer_fired sch) case_timeout
                ++ when (negb (Nat.eqb (length (events (snd st0))) 0)) case_events
                ++ when true case_round_closing) (pick sch)) as (x & Hx).
    { destruct (when (timer_fired sch) _); [| discriminate].
      destruct (when (negb _) _); discriminate. }
    rewrite Hx in Hsem. destruct x; discriminate.
  - exfalso. unfold chan_sem in Hsem.
    destruct (choose _ _) as [[] |]; discriminate.
Qed.

Lemma leaves_doRound ctx k : leaves env (doRound s ctx (S (S k))).
Proof.
  rewrite doRound_exit.
  apply leaves_bind; [auto with leaves | intros [roster | err]];
    cbn [orReturn]; [| auto with leaves].
  apply leaves_bind; [auto with leaves | intros [leader | err]];
    cbn [orReturn]; [| auto with leaves].
  apply leaves_bind; [apply leaves_doRound_wait | intros w].
  apply leaves_round_exit.
Qed.

Lemma main_loop_on_closing k n st :
  closing (snd st) = true ->
  exists c x,
    trace (run env (main_loop s k (S n)) st)
    = [OnChan select_closing_default c true c;
       Did (cancel (WithCancel Background)) x]
    /\ outcome (run env (main_loop s k (S n)) st) = Done None.
Proof.
  destruct closed_for_good as [Hw Ho].
  intros Hc. unfold trace, outcome. cbn. scheduled.
  pose proof (Ho _ select_closing_default st) as [H _]. rewrite E in H. cbn in H.
  unfold chan_sem. rewrite (H Hc). cbn. answer. cbn.
  do 2 eexists; split; reflexivity.
Qed.

Lemma leaves_main_loop k n : leaves env (main_loop s k (S n)).
Proof.
  intros st Hc. destruct (main_loop_on_closing k n st Hc) as (c & x & _ & H).
  eauto.
Qed.

Lemma leaves_loop_next k n err : leaves env (loop_next s k (S n) err).
Proof.
  unfold loop_next. apply leaves_bind; [auto with leaves | intros _].
  destruct err; [auto with leaves | apply leaves_main_loop].
Qed.

Lemma leaves_main k n : leaves env (main s k (S n)).
Proof.
  intros st Hc. destruct closed_for_good as [_ Ho].
  unfold main, outcome. cbn [bind chan run].
  pose proof (proj1 (Ho _ select_start st) Hc) as Hc'.
  destruct (others env select_start st) as [sch st0]. cbn [snd] in Hc'.
  unfold chan_sem. rewrite Hc'.
  destruct (choose_some _ (when (started (snd st0)) case_started
                            ++ when true case_closing) (pick sch)) as (x & Hx).
  { destruct (when (started _) _); discriminate. }
  rewrite Hx.
  assert (Hrest : leaves env
            (match x with
             | case_started =>
                 check [ "refreshing roster" ] refreshRoster s ;;
                 call (logger Debug [] "node has started") ;;
                 main_loop s k (S n)
             | case_closing => Ret None
             end)).
  { destruct x; [| auto with leaves].
    apply leaves_bind.
    - unfold refreshRoster.
      apply leaves_bind; [auto with leaves | intros [roster | err]];
        cbn [orReturn]; [| auto with leaves].
      apply leaves_bind; [auto with leaves | intros [err |]];
        cbn [orFail]; auto with leaves.
    - intros [err |]; cbn [orFail]; [auto with leaves |].
      apply leaves_bind; [auto with leaves | intros _]. apply leaves_main_loop. }
  destruct (Hrest (fst st0, snd st0)) as (r & Hr); [exact Hc' |].
  unfold outcome in Hr.
  destruct (run env _ (fst st0, snd st0)) as [[t o] st2]. cbn in *. eauto.
Qed.

(** Once [main] has returned, its goroutine closes [closed]. *)
Lemma main_exit_closes err st :
  closed (snd (final (run env (main_exit s err) st))) = true.
Proof.
  unfold main_exit, final. rewrite run_bind.
  assert (Hlog : exists tl st1,
             run env (match err with
                      | Some err => call (logger Error [FErr err] "main loop failed")
                      | None => Ret tt
                      end) st = (tl, Done tt, st1)).
  { destruct err; cbn; [answer; destruct x |]; do 2 eexists; reflexivity. }
  destruct Hlog as (tl & st1 & ->).
  cbn [chan run]. scheduled. unfold chan_sem.
  destruct (closed (snd st0)) eqn:Hc; cbn; [exact Hc | reflexivity].
Qed.

Lemma leaves_then_exits (p : Prog (option error)) :
  leaves env p -> exits_on_closing env (err <- p ;; main_exit s err).
Proof.
  intros Hp st Hc. unfold final. rewrite run_bind.
  destruct (Hp st Hc) as (err & Herr). unfold outcome in Herr.
  destruct (run env p st) as [[t o] st1]. cbn in Herr. subst o.
  pose proof (main_exit_closes err st1) as H. unfold final in H.
  destruct (run env (main_exit s err) st1) as [[t' o'] st2]. exact H.
Qed.

(** [main] does not panic, and it waits for ever on a [select] only
    while [closing] is open. *)
Lemma doRound_wait_halts ctx roster leader k st :
  halts_open (run env (doRound_wait s ctx roster leader k) st).
Proof.
  revert st. induction k as [| k IH]; intros st;
    unfold halts_open, outcome, final in *; cbn [doRound_wait];
    destruct (Equal (me s) leader); try (cbn; exact I).
  cbn. scheduled. unfold chan_sem.
  destruct (choose _ _) as [[] |] eqn:Hch; cbn; try exact I.
  - step. destruct x. step. destruct x as [view | err].
    + step. destruct x as [resps | err].
      * step. step. step.
        destruct (await_initial x0 x).
        -- step. destruct x1. step. destruct x1.
           match goal with
           | |- context [run env (doRound_wait s ctx roster leader k) ?st9] =>
               specialize (IH st9);
               destruct (run env (doRound_wait s ctx roster leader k) st9)
                 as [[t' o'] st']
           end.
           exact IH.
        -- step. exact I.
      * step. exact I.
    + step. exact I.
  - destruct (closing (snd st0)) eqn:Hc; [| reflexivity].
    exfalso.
    destruct (choose_some _ (when (timer_fired sch) case_timeout
                ++ when (negb (Nat.eqb (length (events (snd st0))) 0)) case_events
                ++ when true case_round_closing) (pick sch)) as (x & Hx).
    { destruct (when (timer_fired sch) _); [| discriminate].
      destruct (when (negb _) _); discriminate. }
    rewrite Hx in Hch. discriminate.
Qed.

Lemma doRound_halts ctx k st : halts_open (run env (doRound s ctx k) st).
Proof.
  unfold halts_open, outcome, final, doRound.
  step. destruct x as [roster | err]; [| exact I].
  step. destruct x as [leader | err]; [| exact I].
  cbn. rewrite run_bind.
  pose proof (doRound_wait_halts ctx roster leader k st1) as H.
  unfold halts_open, outcome, final in H.
  destruct (run env (doRound_wait s ctx roster leader k) st1) as [[t o] st2].
  cbn in H.
  destruct o as [[r |] | | | ]; cbn; try exact I; try exact H.
  unfold doRound_lead.
  step. step. destruct x0. step. destruct x0 as [err |].
  - step. exact I.
  - step. step. destruct x1. cbn.
    repeat match goal with
    | |- context [run env (bind ?p ?f) ?st] => rewrite (run_bind env p f st)
    end.
    match goal with
    | |- context [run env (doPBFT s ?c) ?st'] =>
        destruct (doPBFT_returns W env s c st') as (tp & err & st'' & Hrun);
        rewrite Hrun
    end.
    destruct err as [err |]; cbn; step; exact I.
Qed.

Lemma main_loop_halts k n st : halts_open (run env (main_loop s k n) st).
Proof.
  revert st; induction n as [| n IH]; intros st;
    unfold halts_open, outcome, final in *; cbn.
  - exact I.
  - scheduled. unfold chan_sem. cbn. destruct (closing (snd st0)).
    + step. exact I.
    + rewrite run_bind.
      pose proof (doRound_halts (WithCancel Background) k (fst st0, snd st0)) as H.
      unfold halts_open, outcome, final in H.
      destruct (run env (doRound s (WithCancel Background) k) (fst st0, snd st0))
        as [[t o] st1].
      cbn in H.
      destruct o as [err | | | ]; cbn; try exact I; try exact H.
      step. destruct err as [err |]; cbn; [exact I |].
      specialize (IH st2).
      destruct (run env (main_loop s k n) st2) as [[t' o'] st3].
      exact IH.
Qed.

Lemma main_halts k n st : halts_open (run env (main s k n) st).
Proof.
  unfold halts_open, main, outcome, final. cbn [bind chan run].
  scheduled. unfold chan_sem.
  destruct (choose _ _) as [[] |] eqn:Hch; cbn; try exact I.
  - unfold refreshRoster. step. destruct x as [roster | err]; cbn; [| exact I].
    step. destruct x as [err |]; cbn; [exact I |].
    step.
    pose proof (main_loop_halts k n st3) as H. unfold halts_open, outcome, final in H.
    destruct (run env (main_loop s k n) st3) as [[t' o'] st4].
    cbn in *. exact H.
  - destruct (closing (snd st0)) eqn:Hc; [| reflexivity].
    exfalso.
    destruct (choose_some _ (when (started (snd st0)) case_started
                              ++ when true case_closing) (pick sch)) as (x & Hx).
    { destruct (when (started _) _); discriminate. }
    rewrite Hx in Hch. discriminate.
Qed.

Lemma main_goroutine_stuck k n st :
  outcome (run env (main_goroutine s k n) st) = Stuck ->
  closing (snd (final (run env (main_goroutine s k n) st))) = false.
Proof.
  unfold main_goroutine, outcome, final. rewrite run_bind.
  pose proof (main_halts k n st) as Hm. unfold halts_open, outcome, final in Hm.
  destruct (run env (main s k n) st) as [[t o] st1]. cbn in Hm.
  destruct o as [err | | | ]; cbn; try discriminate; try (intros _; exact Hm).
  rewrite run_bind.
  assert (Hlog : exists tl st2,
             run env (match err with
                      | Some err => call (logger Error [FErr err] "main loop failed")
                      | None => Ret tt
                      end) st1 = (tl, Done tt, st2)).
  { destruct err; cbn; [answer; destruct x |]; do 2 eexists; reflexivity. }
  destruct Hlog as (tl & st2 & ->).
  cbn [chan run]. scheduled. unfold chan_sem.
  destruct (closed (snd st0)); cbn; discriminate.
Qed.

(** More iterations do not change a run that has ended; a run that has
    used up its iterations goes on from where it is. *)
Lemma doRound_wait_more ctx roster leader m k st :
  run env (doRound_wait s ctx roster leader (k + m)) st
  = match run env (doRound_wait s ctx roster leader k) st with
    | (t, Running, st') =>
        let '(t', o, st'') := run env (doRound_wait s ctx roster leader m) st' in
        (t ++ t', o, st'')
    | r => r
    end.
Proof.
  revert st. induction k as [| k IH]; intros st.
  - cbn [Nat.add]. destruct (Equal (me s) leader) eqn:Hl.
    + rewrite !(doRound_wait_leader s ctx roster leader _ Hl). reflexivity.
    + cbn [doRound_wait]. rewrite Hl. cbn [run].
      destruct (run env _ st) as [[t o] st']. reflexivity.
  - cbn [Nat.add doRound_wait]. destruct (Equal (me s) leader); [reflexivity |].
    cbn [bind chan run]. scheduled.
    destruct (chan_sem (select_round (timeout s)) sch (snd st0)) as [x c | | ];
      [| reflexivity | reflexivity].
    destruct x; [| reflexivity | reflexivity].
    step. destruct x. step. destruct x as [view | err].
    + step. destruct x as [resps | err].
      * cbn. rewrite !run_bind.
        destruct (run_drain env "view propagation failure" resps st3) as (st4 & ->).
        cbn. answer. cbn. answer. cbn.
        destruct (await_initial x0 x).
        -- cbn. answer. destruct x1. cbn. answer. destruct x1.
           rewrite IH.
           destruct (run env (doRound_wait s ctx roster leader k) st8)
             as [[t o] st'].
           destruct o; try reflexivity.
           destruct (run env (doRound_wait s ctx roster leader m) st')
             as [[t' o'] st''].
           cbn. rewrite <- !app_assoc. reflexivity.
        -- cbn. answer. reflexivity.
      * cbn. answer. reflexivity.
    + cbn. answer. reflexivity.
Qed.

Lemma round_exit_returns ctx roster w st :
  exists t r st', run env (round_exit s ctx roster w) st = (t, Done r, st').
Proof.
  destruct w as [r |]; cbn [round_exit]; [do 3 eexists; reflexivity |].
  unfold doRound_lead.
  step. step. destruct x0. step. destruct x0 as [err |].
  - step. do 3 eexists; reflexivity.
  - step. step. destruct x1. cbn.
    repeat match goal with
    | |- context [run env (bind ?p ?f) ?st] => rewrite (run_bind env p f st)
    end.
    match goal with
    | |- context [run env (doPBFT s ?c) ?st'] =>
        destruct (doPBFT_returns W env s c st') as (tp & err & st'' & Hrun);
        rewrite Hrun
    end.
    destruct err as [err |]; cbn; step; do 3 eexists; reflexivity.
Qed.

Lemma doRound_more ctx m k st :
  exists roster leader,
    run env (doRound s ctx (k + m)) st
    = match run env (doRound s ctx k) st with
      | (t, Running, st') =>
          let '(t', o, st'') :=
            run env (w <- doRound_wait s ctx roster leader m ;;
                     round_exit s ctx roster w) st' in
          (t ++ t', o, st'')
      | r => r
      end.
Proof.
  rewrite !doRound_exit. cbn [bind call run].
  destruct (world env getCurrentRoster st) as [[roster | err] st1]; cbn [orReturn];
    [| exists [], 0; reflexivity].
  cbn [bind call run].
  destruct (world env pbftsm_GetLeader st1) as [[leader | err] st2]; cbn [orReturn];
    [| exists [], 0; reflexivity].
  exists roster, leader.
  rewrite !run_bind, doRound_wait_more.
  destruct (run env (doRound_wait s ctx roster leader k) st2) as [[t o] st3].
  destruct o as [w | | | ]; try reflexivity.
  - destruct (round_exit_returns ctx roster w st3) as (t' & r & st4 & ->).
    reflexivity.
  - rewrite run_bind.
    destruct (run env (doRound_wait s ctx roster leader m) st3) as [[t' o'] st4].
    destruct o' as [w | | | ]; try reflexivity.
    destruct (run env (round_exit s ctx roster w) st4) as [[t'' o''] st5].
    cbn. rewrite <- app_assoc. reflexivity.
Qed.

(** If [main] has returned, or [closing] is closed when it has gone as
    far as its iterations allow, it returns with two more iterations for
    the loop of a round and one more for its own. *)
Lemma main_loop_more k n st :
  (exists e, outcome (run env (main_loop s k n) st) = Done e)
  \/ closing (snd (final (run env (main_loop s k n) st))) = true ->
  exists err, outcome (run env (main_loop s (k + 2) (n + 1)) st) = Done err.
Proof.
  revert st; induction n as [| n IH]; intros st.
  - cbn [Nat.add]. intros [(e & He) | Hc]; [discriminate |]. cbn in Hc.
    destruct (leaves_main_loop (k + 2) 0 st Hc) as (err & H). eauto.
  - cbn [Nat.add]. rewrite !main_loop_next. unfold final, outcome.
    cbn [bind chan run]. scheduled.
    unfold chan_sem. destruct (closing (snd st0)) eqn:Hc0.
    + intros _. cbn. answer. cbn. eexists; reflexivity.
    + rewrite !run_bind.
      destruct (doRound_more (WithCancel Background) 2 k (fst st0, snd st0))
        as (roster & leader & ->).
      pose proof (doRound_halts (WithCancel Background) k (fst st0, snd st0)) as Hh.
      unfold halts_open, outcome, final in Hh.
      destruct (run env (doRound s (WithCancel Background) k) (fst st0, snd st0))
        as [[t o] st1].
      cbn in Hh.
      destruct o as [err | | | ]; cbn [fst snd].
      * (* the round has ended *)
        unfold loop_next. cbn [bind call run]. answer.
        destruct err as [err |]; cbn; [intros _; eexists; reflexivity |].
        specialize (IH st2). unfold final, outcome in IH.
        destruct (run env (main_loop s k n) st2) as [[t1 o1] st3].
        destruct (run env (main_loop s (k + 2) (n + 1)) st2) as [[t2 o2] st4].
        cbn in *. exact IH.
      * cbn. intros [(e & He) | Hc]; [discriminate | congruence].
      * contradiction.
      * (* the round goes on *)
        cbn [fst snd]. intros [(e & He) | Hc]; [discriminate |].
        assert (H1 : leaves env (w <- doRound_wait s (WithCancel Background)
                                      roster leader 2 ;;
                               round_exit s (WithCancel Background) roster w)).
        { apply leaves_bind; [apply leaves_doRound_wait | intros w].
          apply leaves_round_exit. }
        destruct (H1 st1 Hc) as (e & He).
        pose proof (run_keeps_closing _
                      (w <- doRound_wait s (WithCancel Background) roster leader 2 ;;
                       round_exit s (WithCancel Background) roster w) st1 Hc) as Hk.
        unfold outcome, final in He, Hk.
        destruct (run env (w <- doRound_wait s (WithCancel Background) roster leader 2 ;;
                           round_exit s (WithCancel Background) roster w) st1)
          as [[t' o'] st2].
        cbn [fst snd] in He, Hk. subst o'.
        assert (H2 : leaves env (loop_next s (k + 2) (n + 1) e))
          by (rewrite Nat.add_1_r; apply leaves_loop_next).
        destruct (H2 st2 Hk) as (err & Herr). unfold outcome in Herr.
        destruct (run env (loop_next s (k + 2) (n + 1) e) st2) as [[t'' o''] st3].
        cbn [fst snd] in Herr |- *. eauto.
Qed.

Lemma main_more k n st :
  (exists e, outcome (run env (main s k n) st) = Done e)
  \/ closing (snd (final (run env (main s k n) st))) = true ->
  exists err, outcome (run env (main s (k + 2) (n + 1)) st) = Done err.
Proof.
  pose proof (main_halts k n st) as Hh. revert Hh.
  unfold halts_open, main, outcome, final. cbn [bind chan run].
  scheduled. unfold chan_sem.
  destruct (choose _ _) as [[] |] eqn:Hch; cbn.
  - unfold refreshRoster. step. destruct x as [roster | err]; cbn;
      [| intros; eexists; reflexivity].
    step. destruct x as [err |]; cbn; [intros; eexists; reflexivity |].
    step.
    pose proof (main_loop_more k n st3) as H. unfold final, outcome in H.
    destruct (run env (main_loop s k n) st3) as [[t1 o1] st4].
    destruct (run env (main_loop s (k + 2) (n + 1)) st3) as [[t2 o2] st5].
    cbn in *. intros _ Hc. apply H. exact Hc.
  - intros; eexists; reflexivity.
  - intros Hh [(e & He) | Hc]; [discriminate | congruence].
Qed.

(** The goroutine of [main], as a whole: if [closing] is closed by the
    time it has gone as far as its iterations allow, whenever that
    happened, then with two more iterations for the loop of a round and
    one more for the loop of [main] it ends, and [closed] is closed. *)
Lemma main_goroutine_more k n st :
  closing (snd (final (run env (main_goroutine s k n) st))) = true ->
  closed (snd (final (run env (main_goroutine s (k + 2) (n + 1)) st))) = true.
Proof.
  intros Hc.
  assert (Hm : exists err, outcome (run env (main s (k + 2) (n + 1)) st) = Done err).
  { apply main_more. revert Hc. rewrite main_goroutine_exit.
    unfold final, outcome. rewrite run_bind.
    destruct (run env (main s k n) st) as [[t o] st1].
    destruct o as [e | | | ]; cbn; [left; eauto | auto | auto | auto]. }
  destruct Hm as (err & Hm).
  rewrite main_goroutine_exit. unfold final, outcome in *. rewrite run_bind.
  destruct (run env (main s (k + 2) (n + 1)) st) as [[t o] st1]. cbn in Hm. subst o.
  pose proof (main_exit_closes err st1) as H. unfold final in H.
  destruct (run env (main_exit s err) st1) as [[t' o'] st2]. exact H.
Qed.

(** [Close] in the company of a goroutine that exits on [closing]. *)
Lemma Close_returns (p : Prog unit) st :
  exits_on_closing env p ->
  closing (snd (snd (others env close_closing st))) = false ->
  outcome (run (with_goroutine env p) (Close s) st) = Done None.
Proof.
  intros Hp Hc. destruct closed_for_good as [_ Ho].
  unfold outcome, Close. cbn [bind chan run with_goroutine others].
  destruct (others env close_closing st) as [sch [w1 c1]]. cbn [snd] in Hc.
  unfold chan_sem at 1. cbn [snd]. rewrite Hc. cbn [fst snd].
  pose proof (proj1 (Ho _ recv_closed (w1, set_closing c1)) eq_refl) as Hc2.
  destruct (others env recv_closed (w1, set_closing c1)) as [sch2 st2].
  cbn [fst snd] in *.
  specialize (Hp st2 Hc2).
  unfold chan_sem. rewrite Hp. reflexivity.
Qed.

Lemma Close_on_closed st :
  closing (snd st) = true -> outcome (run env (Close s) st) = Panic.
Proof.
  intros Hc. unfold outcome, Close. cbn. scheduled.
  pose proof (proj2 closed_for_good _ close_closing st) as [H _].
  rewrite E in H. cbn in H.
  unfold chan_sem. rewrite (H Hc). reflexivity.
Qed.

Lemma Close_on_open st sch w1 c1 sch2 w2 c2 :
  others env close_closing st = (sch, (w1, c1)) ->
  closing c1 = false ->
  others env recv_closed (w1, set_closing c1) = (sch2, (w2, c2)) ->
  run env (Close s) st
  = if closed c2
    then ([OnChan close_closing c1 tt (set_closing c1);
           OnChan recv_closed c2 tt c2], Done None, (w2, c2))
    else ([OnChan close_closing c1 tt (set_closing c1);
           Waits recv_closed c2], Stuck, (w2, c2)).
Proof.
  intros E1 Hc E2.
  unfold Close. cbn. rewrite E1. unfold chan_sem. cbn. rewrite Hc, E2. cbn.
  destruct (closed c2); reflexivity.
Qed.

(** C10: [Close] panics when [closing] is already closed, which is the
    case after a call that returned: a second call panics.  A call made
    while [closing] is open closes it and waits for [closed]; it returns
    nil as soon as [closed] is closed, at once if it already was when
    [Close] was called, as after [main] ended with an error.  The
    goroutine of [main] closes [closed] on every way out of [main], with
    an error (which it logs) or without.  Once [closing] is closed the
    goroutine goes on to that point wherever it is: a round returns, its
    loop being left at the next [select] that is entered; the loop of
    [main] returns at the head of its next iteration; and the goroutine
    waits for ever on a [select] only while [closing] is open.  Whenever
    [closing] was closed during a run of the goroutine, the run ends with
    [closed] closed, given two more iterations for the loop of a round
    and one more for the loop of [main] than it had used.  So a first
    call of [Close] made in the company of that goroutine, be it at its
    start, at the head of the loop of [main] or at the [select] of a
    round, returns nil.  The calls into the collaborators are taken to
    return. *)
Theorem Close_once :
  (forall st, closing (snd st) = true ->
              outcome (run env (Close s) st) = Panic)
  /\ (forall st r, outcome (run env (Close s) st) = Done r ->
                   r = None
                   /\ closing (snd (final (run env (Close s) st))) = true)
  /\ (forall st sch w1 c1 sch2 w2 c2,
         others env close_closing st = (sch, (w1, c1)) ->
         closing c1 = false ->
         others env recv_closed (w1, set_closing c1) = (sch2, (w2, c2)) ->
         run env (Close s) st
         = if closed c2
           then ([OnChan close_closing c1 tt (set_closing c1);
                  OnChan recv_closed c2 tt c2], Done None, (w2, c2))
           else ([OnChan close_closing c1 tt (set_closing c1);
                  Waits recv_closed c2], Stuck, (w2, c2)))
  /\ (forall st, closed (snd st) = true ->
                 closing (snd (snd (others env close_closing st))) = false ->
                 outcome (run env (Close s) st) = Done None)
  /\ (forall k n st t err st1,
         run env (main s k n) st = (t, Done err, st1) ->
         closed (snd (final (run env (main_goroutine s k n) st))) = true
         /\ exists c,
             trace (run env (main_goroutine s k n) st)
             = t ++ match err with
                    | Some err => [Did (logger Error [FErr err] "main loop failed") tt]
                    | None => []
                    end
                 ++ [if closed c then Panicked close_closed c
                     else OnChan close_closed c tt (set_closed c)])
  /\ (forall k n st,
         closing (snd st) = true ->
         exists c x,
           trace (run env (main_loop s k (S n)) st)
           = [OnChan select_closing_default c true c;
              Did (cancel (WithCancel Background)) x]
           /\ outcome (run env (main_loop s k (S n)) st) = Done None)
  /\ (forall ctx k st,
         closing (snd st) = true ->
         exists r, outcome (run env (doRound s ctx (S (S k))) st) = Done r)
  /\ (forall k n st,
         outcome (run env (main_goroutine s k n) st) = Stuck ->
         closing (snd (final (run env (main_goroutine s k n) st))) = false)
  /\ (forall k n st,
         closing (snd (final (run env (main_goroutine s k n) st))) = true ->
         closed (snd (final (run env (main_goroutine s (k + 2) (n + 1)) st))) = true)
  /\ (forall k n, exits_on_closing env (main_goroutine s k (S n)))
  /\ (forall k n, exits_on_closing env (at_loop_head s k (S n)))
  /\ (forall roster leader k' k n,
         exits_on_closing env (at_round_select s roster leader (S (S k')) k (S n)))
  /\ (forall (p : Prog unit) st,
         exits_on_closing env p ->
         closing (snd (snd (others env close_closing st))) = false ->
         outcome (run (with_goroutine env p) (Close s) st) = Done None).
Proof.
  destruct closed_for_good as [Hw Ho].
  split; [exact Close_on_closed |].
  split; [| split; [exact Close_on_open | split; [| split]]].
  - intros st r. unfold outcome, final, Close. cbn. scheduled.
    unfold chan_sem. destruct (closing (snd st0)) eqn:Hc; [discriminate |].
    cbn. scheduled.
    pose proof (Ho _ recv_closed (fst st0, set_closing (snd st0))) as [H _].
    rewrite E0 in H. cbn in H. specialize (H eq_refl).
    destruct (closed (snd st1)); [| discriminate].
    cbn. intros Hr; injection Hr as <-. split; [reflexivity | exact H].
  - intros st Hcl Hc.
    destruct (others env close_closing st) as [sch [w1 c1]] eqn:E1.
    destruct (others env recv_closed (w1, set_closing c1)) as [sch2 [w2 c2]] eqn:E2.
    cbn in Hc. rewrite (Close_on_open st sch w1 c1 sch2 w2 c2 E1 Hc E2).
    pose proof (Ho _ close_closing st) as [_ H1]. rewrite E1 in H1. cbn in H1.
    pose proof (Ho _ recv_closed (w1, set_closing c1)) as [_ H2].
    rewrite E2 in H2. cbn in H2.
    rewrite (H2 (H1 Hcl)). reflexivity.
  - intros k n st t err st1 Hrun.
    unfold trace, final, main_goroutine. rewrite run_bind, Hrun, run_bind.
    assert (Hlog : exists st2,
               run env (match err with
                        | Some err => call (logger Error [FErr err] "main loop failed")
                        | None => Ret tt
                        end) st1
               = (match err with
                  | Some err => [Did (logger Error [FErr err] "main loop failed") tt]
                  | None => []
                  end, Done tt, st2)).
    { destruct err; cbn; [answer; destruct x |]; eexists; reflexivity. }
    destruct Hlog as (st2 & ->).
    cbn [chan run]. scheduled. unfold chan_sem.
    destruct (closed (snd st0)) eqn:Hc; cbn.
    + split; [exact Hc |]. exists (snd st0). rewrite Hc. reflexivity.
    + split; [reflexivity |]. exists (snd st0). rewrite Hc. reflexivity.
  - split; [exact main_loop_on_closing |].
    split; [exact leaves_doRound |].
    split; [exact main_goroutine_stuck |].
    split; [exact main_goroutine_more |].
    split; [| split; [| split]].
    + intros k n. rewrite main_goroutine_exit.
      apply leaves_then_exits. apply leaves_main.
    + intros k n. apply leaves_then_exits. apply leaves_main_loop.
    + intros roster leader k' k n. apply leaves_then_exits.
      apply leaves_bind; [| intros err; apply leaves_loop_next].
      apply leaves_bind; [apply leaves_doRound_wait | intros w].
      apply leaves_round_exit.
    + intros p st Hp Hc. apply Close_returns; assumption.
Qed.

End Shutdown.

(** * Scenarios *)

(** ** The scripted environments meet the assumptions *)

Lemma scripted_sticky_Err (answers : nat -> forall X, Ext X -> X) sched intrude :
  (forall n m ctx, answers n _ (ctx_Err ctx) = answers m _ (ctx_Err ctx)) ->
  sticky_Err (scripted answers sched intrude).
Proof.
  intros H ctx [n c] e st' E. cbn in *.
  injection E as E _. rewrite <- E. apply H.
Defined.

Lemma scripted_no_reopen (answers : nat -> forall X, Ext X -> X) sched intrude :
  (forall n c, stays_closed c (intrude n c)) ->
  no_reopen (scripted answers sched intrude).
Proof.
  intros H. split.
  - intros X e st. cbn. split; auto.
  - intros X op st. cbn. apply H.
Defined.

Lemma main_exits_stays_closed n c : stays_closed c (main_exits n c).
Proof.
  unfold main_exits, stays_closed. destruct (Nat.eqb n 0); cbn; auto.
Defined.

(** ** GetProof *)

(** C9 fails as stated: for the empty key, [GetProof] returns neither a
    proof nor an error. *)
Lemma GetProof_neither_proof_nor_error :
  outcome (run (scripted (fun _ => all_well) fair nobody)
             (GetProof (NewService_service 1) []) (0, started_chans))
  = Done (None, None)
  /\ ~ (exists r, outcome (run (scripted (fun _ => all_well) fair nobody)
                      (GetProof (NewService_service 1) []) (0, started_chans))
                  = Done r
                  /\ (fst r <> None \/ snd r <> None)).
Proof.
  split; [reflexivity |].
  intros (r & Hr & H). cbn in Hr. injection Hr as <-.
  destruct H as [H | H]; apply H; reflexivity.
Qed.

(** ** A leader round *)

(** The context of the round is done when the pool returns. *)
Lemma doPBFT_gathers_then_checks_context_witness :
  exists txs err t,
    trace (run (scripted (fun _ => context_done) fair nobody)
             (doPBFT (NewService_service 1) round_ctx) (0, started_chans))
    = Did (pool_Gather round_ctx (mkPoolConfig 1)) txs
        :: Did (ctx_Err round_ctx) err :: t
    /\ match err with
       | Some e => t = [Did (ctx_Err round_ctx) (Some e)]
                   /\ outcome (run (scripted (fun _ => context_done) fair nobody)
                                 (doPBFT (NewService_service 1) round_ctx)
                                 (0, started_chans))
                      = Done (Some e)
       | None => 1 <= length txs /\ Forall (eq txs) (validated t)
       end.
Proof.
  apply doPBFT_gathers_then_checks_context.
  - apply scripted_sticky_Err. reflexivity.
  - intros ctx cfg st txs st' _. right. cbn. discriminate.
Defined.

Example doPBFT_stops_when_context_done :
  run (scripted (fun _ => context_done) fair nobody)
    (doPBFT (NewService_service 1) round_ctx) (0, started_chans)
  = ([Did (pool_Gather round_ctx (mkPoolConfig 1)) [];
      Did (ctx_Err round_ctx) (Some (ErrExt 9));
      Did (ctx_Err round_ctx) (Some (ErrExt 9))],
     Done (Some (ErrExt 9)), (3, started_chans)).
Proof. reflexivity. Qed.

(** Every collaborator succeeds: the round goes through the three
    phases. *)
Example doPBFT_completes :
  outcome (run (scripted (fun _ => all_well) fair nobody)
             (doPBFT (NewService_service 1) round_ctx) (0, started_chans))
  = Done None
  /\ map (fun c => match c with
                   | PrepareCall _ r => (1, is_ok r)
                   | CommitCall _ _ r => (2, is_ok r)
                   | FinalizeCall _ _ sent => (3, sent)
                   end)
       (phases (trace (run (scripted (fun _ => all_well) fair nobody)
                         (doPBFT (NewService_service 1) round_ctx)
                         (0, started_chans))))
     = [(1, true); (2, true); (3, true)].
Proof. split; reflexivity. Qed.

Lemma doPBFT_phases_in_order_witness :
  match phases (trace (run (scripted (fun _ => all_well) fair nobody)
                         (doPBFT (NewService_service 1) round_ctx)
                         (0, started_chans))) with
  | [] => outcome (run (scripted (fun _ => all_well) fair nobody)
                     (doPBFT (NewService_service 1) round_ctx) (0, started_chans))
          <> Done None
  | [PrepareCall _ (inr _)] =>
      outcome (run (scripted (fun _ => all_well) fair nobody)
                 (doPBFT (NewService_service 1) round_ctx) (0, started_chans))
      <> Done None
  | [PrepareCall _ (inl sig1); CommitCall _ sig (inr _)] =>
      sig = sig1
      /\ outcome (run (scripted (fun _ => all_well) fair nobody)
                    (doPBFT (NewService_service 1) round_ctx) (0, started_chans))
         <> Done None
  | [PrepareCall _ (inl sig1); CommitCall id sig (inl sig2);
     FinalizeCall id' sig' sent] =>
      sig = sig1 /\ id' = id /\ sig' = sig2
      /\ (outcome (run (scripted (fun _ => all_well) fair nobody)
                     (doPBFT (NewService_service 1) round_ctx) (0, started_chans))
          = Done None -> sent = true)
  | _ => False
  end.
Proof.
  apply doPBFT_phases_in_order.
  apply scripted_sticky_Err. reflexivity.
Defined.

(** With four blocks in the store, the proposed block has index 5. *)
Example doPBFT_block_index_at_length_4 :
  map GetIndex
    (proposed (trace (run (scripted (fun _ => all_well) fair nobody)
                        (doPBFT (NewService_service 1) round_ctx) (0, started_chans))))
  = [5%Z].
Proof. reflexivity. Qed.

Lemma doPBFT_block_index_witness :
  exists h t,
    trace (run (scripted (fun _ => all_well) fair nobody)
             (doPBFT (NewService_service 1) round_ctx) (0, started_chans))
    = Did (pool_Gather round_ctx (mkPoolConfig 1)) [7]
        :: Did (ctx_Err round_ctx) None
        :: [Did tree_Stage_enter (Some 0);
            Did (val_Validate 0 [7]) (inl (mkData [mkResult 7 true]));
            Did (tree_Stage_leave (Some None)) (inl [Byte.x01; Byte.x02])]
        ++ Did blocks_Len 4%Z
        :: Did (hashFactory_digest (add64 4 1) (Some (mkData [mkResult 7 true]))
                  (copy zeroDigest [Byte.x01; Byte.x02])) h
        :: t
    /\ ((0 <= 4 < 2 ^ 64 - 1)%Z -> add64 4 1 = (4 + 1)%Z)
    /\ match h with
       | inr err =>
           t = []
           /\ outcome (run (scripted (fun _ => all_well) fair nobody)
                         (doPBFT (NewService_service 1) round_ctx) (0, started_chans))
              = Done (Some (Errorf "creating block failed" err))
       | inl digest =>
           proposed (trace (run (scripted (fun _ => all_well) fair nobody)
                              (doPBFT (NewService_service 1) round_ctx)
                              (0, started_chans)))
           = [mkBlock (add64 4 1) (Some (mkData [mkResult 7 true]))
                (copy zeroDigest [Byte.x01; Byte.x02]) digest]
           /\ exists answer t1,
               t = Did (pbftsm_Prepare
                          (mkBlock (add64 4 1) (Some (mkData [mkResult 7 true]))
                             (copy zeroDigest [Byte.x01; Byte.x02]) digest)) answer
                     :: t1
               /\ match answer with
                  | inr err =>
                      t1 = []
                      /\ outcome (run (scripted (fun _ => all_well) fair nobody)
                                    (doPBFT (NewService_service 1) round_ctx)
                                    (0, started_chans))
                         = Done (Some (Errorf "pbft prepare failed" err))
                  | inl _ =>
                      exists read t2,
                        t1 = Did getCurrentRoster read :: t2
                        /\ match read with
                           | inr err =>
                               t2 = []
                               /\ outcome (run (scripted (fun _ => all_well) fair nobody)
                                             (doPBFT (NewService_service 1) round_ctx)
                                             (0, started_chans))
                                  = Done (Some (Errorf "read roster failed" err))
                           | inl roster =>
                               exists sig t3,
                                 t2 = Did (actor_Sign round_ctx
                                             (NewBlockMessage
                                                (mkBlock (add64 4 1)
                                                   (Some (mkData [mkResult 7 true]))
                                                   (copy zeroDigest [Byte.x01; Byte.x02])
                                                   digest))
                                             roster) sig :: t3
                           end
                  end
       end.
Proof.
  apply (doPBFT_block_index nat (scripted (fun _ => all_well) fair nobody)
           (NewService_service 1) round_ctx (0, started_chans)
           [7] (1, started_chans) (2, started_chans)
           [Did tree_Stage_enter (Some 0);
            Did (val_Validate 0 [7]) (inl (mkData [mkResult 7 true]));
            Did (tree_Stage_leave (Some None)) (inl [Byte.x01; Byte.x02])]
           (Some (mkData [mkResult 7 true])) (copy zeroDigest [Byte.x01; Byte.x02])
           (5, started_chans) 4%Z (6, started_chans));
    reflexivity.
Defined.

(** The synchronization of a leader round fails. *)
Lemma doRound_leader_syncs_first_witness :
  exists len failed t,
    trace (run (scripted (fun _ => sync_fails) fair nobody)
             (doRound (NewService_service 1) (WithCancel Background) 1)
             (0, started_chans))
    = Did getCurrentRoster (inl [1; 2; 3])
        :: Did pbftsm_GetLeader (inl 1)
        :: Did blocks_Len len
        :: Did (logger Debug [FUint64 "index" (add64 len 1)] "round has started") tt
        :: Did (sync_Sync round_ctx [1; 2; 3] (mkSyncConfig 3)) failed
        :: t
    /\ match failed with
       | Some err =>
           t = [Did (cancel round_ctx) tt]
           /\ outcome (run (scripted (fun _ => sync_fails) fair nobody)
                         (doRound (NewService_service 1) (WithCancel Background) 1)
                         (0, started_chans))
              = Done (Some (Errorf "sync failed" err))
       | None =>
           exists len' st3,
             t = Did blocks_Len len'
                   :: Did (logger Debug [FUint64 "index" (add64 len' 1)]
                             "pbft has started") tt
                   :: trace (run (scripted (fun _ => sync_fails) fair nobody)
                               (doPBFT (NewService_service 1) round_ctx) st3)
                   ++ [Did (cancel round_ctx) tt]
       end.
Proof.
  exact (doRound_leader_syncs_first _ (scripted (fun _ => sync_fails) fair nobody)
           (NewService_service 1) (WithCancel Background) 1
           (0, started_chans) [1; 2; 3] (1, started_chans) (2, started_chans)
           eq_refl eq_refl).
Defined.

(** ** A follower whose timer fires *)


Example follower_changes_view_then_leaves :
  logged (trace (run (scripted (fun _ => peers_fail) timer_once closing_later)
                   (doRound_wait (NewService_service 2) (WithCancel Background)
                      [1; 2; 3] 1 2) (0, started_chans)))
  = ["round reached the timeout"; "view propagation failure";
     "view propagation failure"; "view change successful"]
  /\ outcome (run (scripted (fun _ => peers_fail) timer_once closing_later)
                (doRound_wait (NewService_service 2) (WithCancel Background)
                   [1; 2; 3] 1 2) (0, started_chans))
     = Done (Some None).
Proof. split; reflexivity. Qed.

(** ** A round that fails *)

(** C1 fails as stated: the synchronization of the first round fails, an
    ordinary round failure.  [main] logs nothing about it and returns the
    error; one round was started although three were granted. *)
Lemma round_failure_ends_main :
  outcome (run (scripted (fun _ => sync_fails) fair nobody)
             (main (NewService_service 1) 1 3) (0, started_chans))
  = Done (Some (Errorf "round failed" (Errorf "sync failed" (ErrExt 2))))
  /\ logged (trace (run (scripted (fun _ => sync_fails) fair nobody)
                      (main (NewService_service 1) 1 3) (0, started_chans)))
     = ["node has started"; "round has started"]
  /\ rounds_started (trace (run (scripted (fun _ => sync_fails) fair nobody)
                              (main (NewService_service 1) 1 3) (0, started_chans)))
     = [5%Z].
Proof. repeat split; reflexivity. Qed.

Lemma main_stops_on_round_failure_witness :
  run (scripted (fun _ => sync_fails) fair nobody)
    (main_loop (NewService_service 1) 1 3) (4, started_chans)
  = (OnChan select_closing_default started_chans false started_chans
       :: [Did getCurrentRoster (inl [1; 2; 3]);
           Did pbftsm_GetLeader (inl 1);
           Did blocks_Len 4%Z;
           Did (logger Debug [FUint64 "index" 5] "round has started") tt;
           Did (sync_Sync round_ctx [1; 2; 3] (mkSyncConfig 3)) (Some (ErrExt 2));
           Did (cancel round_ctx) tt]
       ++ [Did (cancel (WithCancel Background)) tt],
     Done (Some (Errorf "round failed" (Errorf "sync failed" (ErrExt 2)))),
     (12, started_chans)).
Proof.
  exact (proj1 (main_stops_on_round_failure nat
                  (scripted (fun _ => sync_fails) fair nobody)
                  (NewService_service 1) 1)
           2 (4, started_chans) (fair 4) 5 started_chans _ _ _
           eq_refl eq_refl eq_refl).
Defined.

(** ** A roster that cannot be read *)

(** C7 fails as stated: the roster cannot be read when the node starts;
    [main] returns the error and runs no round. *)
Lemma refresh_failure_ends_main :
  run (scripted (fun _ => roster_unreadable) fair nobody)
    (main (NewService_service 1) 1 3) (0, started_chans)
  = ([OnChan select_start started_chans case_started started_chans;
      Did getCurrentRoster (inr (ErrExt 1))],
     Done (Some (Errorf "refreshing roster" (Errorf "reading roster" (ErrExt 1)))),
     (2, started_chans)).
Proof. reflexivity. Qed.

(** In the notification flow the same failure is logged and the event of
    the link is published all the same. *)
Example refresh_failure_in_watchBlocks :
  run (scripted (fun _ => roster_unreadable) fair nobody)
    (watchBlocks_body (NewService_service 1) link5) (0, started_chans)
  = ([Did (pool_Remove 7) None; Did (pool_Remove 8) None;
      Did getCurrentRoster (inr (ErrExt 1));
      Did (logger Error [FErr (Errorf "reading roster" (ErrExt 1))]
             "roster refresh failed") tt;
      OnChan (offer_events (mkEvent 5)) started_chans true
        (set_events started_chans [mkEvent 5]);
      Did watcher_observers []],
     Done tt, (6, set_events started_chans [mkEvent 5])).
Proof. reflexivity. Qed.

Lemma refreshRoster_failure_witness :
  run (scripted (fun _ => roster_unreadable) fair nobody)
    (refreshRoster (NewService_service 1)) (1, started_chans)
  = ([Did getCurrentRoster (inr (ErrExt 1))],
     Done (Some (Errorf "reading roster" (ErrExt 1))), (2, started_chans))
  /\ (exists removals st1,
         forallb is_removal removals = true
         /\ forall t err st2,
             run (scripted (fun _ => roster_unreadable) fair nobody)
               (refreshRoster (NewService_service 1)) st1 = (t, Done (Some err), st2) ->
             run (scripted (fun _ => roster_unreadable) fair nobody)
               (watchBlocks_body (NewService_service 1) link5) (0, started_chans)
             = let '(t', o, st3) :=
                 run (scripted (fun _ => roster_unreadable) fair nobody)
                   (chan (offer_events (mkEvent 5)) ;; watcher_Notify (mkEvent 5))
                   (snd (world (scripted (fun _ => roster_unreadable) fair nobody)
                           (logger Error [FErr err] "roster refresh failed") st2))
               in (removals ++ t
                     ++ Did (logger Error [FErr err] "roster refresh failed") tt :: t',
                   o, st3))
  /\ run (scripted (fun _ => roster_unreadable) fair nobody)
       (main (NewService_service 1) 1 3) (0, started_chans)
     = ([OnChan select_start started_chans case_started started_chans;
         Did getCurrentRoster (inr (ErrExt 1))],
        Done (Some (Errorf "refreshing roster" (Errorf "reading roster" (ErrExt 1)))),
        (2, started_chans)).
Proof.
  destruct (refreshRoster_failure nat
              (scripted (fun _ => roster_unreadable) fair nobody)
              (NewService_service 1)) as (Ha & Hb & Hc).
  split; [| split].
  - exact (Ha (1, started_chans) (ErrExt 1) (2, started_chans) eq_refl).
  - exact (Hb link5 _ (0, started_chans) eq_refl).
  - exact (Hc 1 3 (0, started_chans) (fair 0) 1 started_chans started_chans
             _ _ _ eq_refl eq_refl (Ha (1, started_chans) (ErrExt 1)
                                       (2, started_chans) eq_refl)).
Defined.

(** ** A stored link *)

(** With room everywhere the event reaches [events] and both watchers. *)
Example watchBlocks_all_served :
  outcome (run (scripted (fun _ => two_watchers) fair nobody)
             (watchBlocks_body (NewService_service 2) link5) (0, idle_chans))
  = Done tt
  /\ snd (final (run (scripted (fun _ => two_watchers) fair nobody)
                   (watchBlocks_body (NewService_service 2) link5) (0, idle_chans)))
     = mkChans true false false [mkEvent 5] [[mkEvent 5]; [mkEvent 5]].
Proof. split; reflexivity. Qed.

(** With the previous event still in [events] the new one is dropped
    there, and the flow waits on the first watcher, whose channel is
    full. *)
Example watchBlocks_drops_and_waits :
  outcome (run (scripted (fun _ => two_watchers) fair nobody)
             (watchBlocks_body (NewService_service 2) link5) (0, busy_chans))
  = Stuck
  /\ snd (final (run (scripted (fun _ => two_watchers) fair nobody)
                   (watchBlocks_body (NewService_service 2) link5) (0, busy_chans)))
     = busy_chans.
Proof. split; reflexivity. Qed.

Lemma watchBlocks_publishes_witness :
  exists t0 before sent after observers t1,
    trace (run (scripted (fun _ => two_watchers) fair nobody)
             (watchBlocks_body (NewService_service 2) link5) (0, idle_chans))
    = t0 ++ OnChan (offer_events (mkEvent 5)) before sent after
         :: Did watcher_observers observers :: t1
    /\ forallb is_call t0 = true
    /\ sent = Nat.ltb (length (events before)) events_cap
    /\ after = (if sent
                then set_events before (events before ++ [mkEvent 5])
                else before)
    /\ fanout (mkEvent 5) observers t1
         (outcome (run (scripted (fun _ => two_watchers) fair nobody)
                     (watchBlocks_body (NewService_service 2) link5)
                     (0, idle_chans))).
Proof.
  exact (watchBlocks_publishes nat (scripted (fun _ => two_watchers) fair nobody)
           (NewService_service 2) link5 _ (0, idle_chans) eq_refl).
Defined.

(** ** Closing the service *)

Lemma nobody_stays_closed n c : stays_closed c (nobody n c).
Proof. split; auto. Defined.

Lemma scripted_timer_yields (answers : nat -> forall X, Ext X -> X) intrude :
  timer_yields (scripted answers no_timer intrude).
Proof. intros d st _ _. reflexivity. Defined.

Lemma closing_after_stays_closed m n c : stays_closed c (closing_after m n c).
Proof.
  unfold closing_after, stays_closed. destruct (Nat.ltb n m); cbn; auto.
Defined.

(** [Close] is called on a node that leads its rounds while its
    goroutine is at the head of the loop of [main], and on a node that
    waits for its leader while its goroutine is at the [select] of a
    round: the call returns, and a second call panics.  When [Close] is
    called while the node waits in its first round, the goroutine, that
    was given one iteration of the loop of [main], is still running with
    [closing] closed; given one more it closes [closed]. *)
Lemma Close_once_witness :
  closed (snd (final (run (scripted (fun _ => all_well) no_timer (closing_after 6))
                        (main_goroutine (NewService_service 2) 3 2)
                        (0, started_chans))))
  = true
  /\   outcome (run (with_goroutine (scripted (fun _ => all_well) no_timer nobody)
                  (at_loop_head (NewService_service 1) 2 1))
             (Close (NewService_service 1)) (0, started_chans))
  = Done None
  /\ outcome (run (with_goroutine (scripted (fun _ => all_well) no_timer nobody)
                     (at_round_select (NewService_service 2) [1; 2; 3] 1 2 2 1))
                (Close (NewService_service 2)) (0, started_chans))
     = Done None
  /\ outcome (run (scripted (fun _ => all_well) no_timer nobody)
                (Close (NewService_service 1))
                (final (run (with_goroutine (scripted (fun _ => all_well) no_timer nobody)
                               (at_loop_head (NewService_service 1) 2 1))
                          (Close (NewService_service 1)) (0, started_chans))))
     = Panic.
Proof.
  assert (H : no_reopen (scripted (fun _ => all_well) no_timer nobody))
    by (apply scripted_no_reopen; apply nobody_stays_closed).
  assert (T : timer_yields (scripted (fun _ => all_well) no_timer nobody))
    by apply scripted_timer_yields.
  destruct (Close_once nat (scripted (fun _ => all_well) no_timer nobody)
              (NewService_service 1) H T eq_refl)
    as (P1 & _ & _ & _ & _ & _ & _ & _ & _ & _ & P10 & _ & P12).
  destruct (Close_once nat (scripted (fun _ => all_well) no_timer nobody)
              (NewService_service 2) H T eq_refl)
    as (_ & _ & _ & _ & _ & _ & _ & _ & _ & _ & _ & Q11 & Q12).
  destruct (Close_once nat (scripted (fun _ => all_well) no_timer (closing_after 6))
              (NewService_service 2)
              (scripted_no_reopen _ _ _ (closing_after_stays_closed 6))
              (scripted_timer_yields _ _) eq_refl)
    as (_ & _ & _ & _ & _ & _ & _ & _ & R9 & _).
  split; [apply (R9 1 1 (0, started_chans)); reflexivity |].
  split; [apply P12; [apply P10 | reflexivity] |].
  split; [apply Q12; [apply Q11 | reflexivity] |].
  apply P1. reflexivity.
Defined.

(** The goroutine of [main], at the head of its loop when [Close] is
    called, finds [closing] closed, returns and closes [closed], on
    which [Close] returns. *)
Example Close_with_main_at_loop_head :
  run (with_goroutine (scripted (fun _ => all_well) no_timer nobody)
         (at_loop_head (NewService_service 1) 2 1))
    (Close (NewService_service 1)) (0, started_chans)
  = ([OnChan close_closing started_chans tt (set_closing started_chans);
      OnChan recv_closed (set_closed (set_closing started_chans)) tt
        (set_closed (set_closing started_chans))],
     Done None, (5, set_closed (set_closing started_chans)))
  /\ trace (run (scripted (fun _ => all_well) no_timer nobody)
              (at_loop_head (NewService_service 1) 2 1)
              (2, set_closing started_chans))
     = [OnChan select_closing_default (set_closing started_chans) true
          (set_closing started_chans);
        Did (cancel (WithCancel Background)) tt;
        OnChan close_closed (set_closing started_chans) tt
          (set_closed (set_closing started_chans))].
Proof. split; reflexivity. Qed.

(** The goroutine of a node that waits for its leader is at the
    [select] of the round when [Close] is called. *)
Example Close_with_main_at_round_select :
  trace (run (scripted (fun _ => all_well) no_timer nobody)
           (at_round_select (NewService_service 2) [1; 2; 3] 1 2 2 1)
           (2, set_closing started_chans))
  = [OnChan (select_round RoundTimeout) (set_closing started_chans)
       case_round_closing (set_closing started_chans);
     Did (cancel (WithCancel Background)) tt;
     OnChan select_closing_default (set_closing started_chans) true
       (set_closing started_chans);
     Did (cancel (WithCancel Background)) tt;
     OnChan close_closed (set_closing started_chans) tt
       (set_closed (set_closing started_chans))].
Proof. reflexivity. Qed.

(** [Close] is called while node 2 waits in its first round: with one
    iteration of the loop of [main] its goroutine is still running when
    the round has returned; with one more it finds [closing] closed at
    the head of the loop and closes [closed]. *)
Example main_goroutine_meets_Close :
  outcome (run (scripted (fun _ => all_well) no_timer (closing_after 6))
             (main_goroutine (NewService_service 2) 1 1) (0, started_chans))
  = Running
  /\ logged (trace (run (scripted (fun _ => all_well) no_timer (closing_after 6))
                      (main_goroutine (NewService_service 2) 3 2) (0, started_chans)))
     = ["node has started"]
  /\ map saw_closing
       (filter (fun a => negb (is_call a))
          (trace (run (scripted (fun _ => all_well) no_timer (closing_after 6))
                    (main_goroutine (NewService_service 2) 3 2) (0, started_chans))))
     = [false; false; true; true; false]
  /\ outcome (run (scripted (fun _ => all_well) no_timer (closing_after 6))
                (main_goroutine (NewService_service 2) 3 2) (0, started_chans))
     = Done tt.
Proof. repeat split; reflexivity. Qed.

(** Alone, [Close] waits for [closed]. *)
Example Close_alone_waits :
  outcome (run (scripted (fun _ => all_well) no_timer nobody)
             (Close (NewService_service 1)) (0, started_chans))
  = Stuck.
Proof. reflexivity. Qed.

(** A start-up failure of [main] is logged by its goroutine, which then
    closes [closed]. *)
Example main_goroutine_exit_with_error :
  trace (run (scripted (fun _ => roster_unreadable) fair nobody)
           (main_goroutine (NewService_service 1) 1 3) (0, started_chans))
  = [OnChan select_start started_chans case_started started_chans;
     Did getCurrentRoster (inr (ErrExt 1));
     Did (logger Error
            [FErr (Errorf "refreshing roster" (Errorf "reading roster" (ErrExt 1)))]
            "main loop failed") tt;
     OnChan close_closed started_chans tt (set_closed started_chans)].
Proof. reflexivity. Qed.

(** * More of the service *)

(** ** Setup *)

Lemma first_error_None resps : first_error resps = None <-> forallb is_ok resps = true.
Proof.
  induction resps as [| [m | err] resps IH]; cbn; [tauto | exact IH |].
  split; discriminate.
Qed.

Lemma first_error_app before err after :
  forallb is_ok before = true ->
  first_error (before ++ inr err :: after) = Some err.
Proof.
  induction before as [| [m | e] before IH]; cbn; auto. discriminate.
Qed.

Section Genesis.

Context (W : Type) (env : Env W) (s : Service).
Context (NewGenesis : Roster -> res Genesis).

(** The loop of [Setup] stops at the first failure and calls nobody. *)
Lemma run_Setup_responses resps st :
  run env (Setup_responses resps) st
  = ([], Done (option_map (Errorf "one request failed") (first_error resps)), st).
Proof.
  induction resps as [| [m | err] resps IH]; cbn; auto.
Qed.

(** X1: [Setup] returns nil exactly when the genesis was created, the RPC
    accepted the call and every participant answered without an error. *)
Theorem Setup_nil_iff ctx ca st :
  outcome (run env (Setup s NewGenesis ctx ca) st) = Done None
  <-> exists genesis resps,
        NewGenesis ca = inl genesis
        /\ fst (world env (rpc_Call ctx (NewGenesisMessage genesis) ca) st) = inl resps
        /\ forallb is_ok resps = true.
Proof.
  unfold outcome, Setup. cbn.
  destruct (NewGenesis ca) as [genesis | err]; cbn.
  - destruct (world env (rpc_Call ctx (NewGenesisMessage genesis) ca) st)
      as [[resps | err] st1] eqn:E; cbn.
    + rewrite run_Setup_responses. cbn. split.
      * intros H. exists genesis, resps. rewrite E. repeat split.
        apply first_error_None. destruct (first_error resps); [discriminate | reflexivity].
      * intros (g & r & Hg & Hr & Hok). injection Hg as <-.
        rewrite E in Hr. injection Hr as <-.
        apply first_error_None in Hok. rewrite Hok. reflexivity.
    + split; [discriminate |].
      intros (g & r & Hg & Hr & _). injection Hg as <-.
      rewrite E in Hr. discriminate.
  - split; [discriminate |]. intros (g & r & Hg & _). discriminate.
Qed.

(** X2: When a participant answers with an error, [Setup] returns at once
    with that error, wrapped: the responses that follow are not read, and
    nothing is logged, unlike what the rounds do with the responses of
    their calls. *)
Theorem Setup_first_failure ctx ca st genesis resps st' before err after :
  NewGenesis ca = inl genesis ->
  world env (rpc_Call ctx (NewGenesisMessage genesis) ca) st = (inl resps, st') ->
  resps = before ++ inr err :: after ->
  forallb is_ok before = true ->
  run env (Setup s NewGenesis ctx ca) st
  = ([Did (rpc_Call ctx (NewGenesisMessage genesis) ca) (inl resps)],
     Done (Some (Errorf "one request failed" err)), st').
Proof.
  intros Hg Hr -> Hok. unfold Setup. cbn. rewrite Hg. cbn. rewrite Hr. cbn.
  rewrite run_Setup_responses, first_error_app by exact Hok. reflexivity.
Qed.

End Genesis.

(** ** prepareData and wakeUp *)

Lemma copy_length dst src : length (copy dst src) = length dst.
Proof.
  unfold copy. rewrite length_app, length_firstn, length_skipn. lia.
Qed.

Lemma copy_whole dst src : length src = length dst -> copy dst src = src.
Proof.
  intros H. unfold copy. rewrite <- H, firstn_all, skipn_all2 by lia.
  apply app_nil_r.
Qed.

Lemma logged_log_failures msg resps :
  logged (log_failures msg resps) = repeat msg (length (failures resps)).
Proof.
  unfold logged, log_failures, failures.
  induction resps as [| [m | err] resps IH]; cbn; auto.
  rewrite IH. reflexivity.
Qed.

Lemma rpc_answer_of_log a : is_log a = true -> rpc_answer_of a = None.
Proof. not_a_log a. Qed.

Section Preparation.

Context (W : Type) (env : Env W) (s : Service).

(** X3: [prepareData] always returns.  The identifier it returns has the
    length of a digest whatever the length of the root of the staged
    tree: the root is cut or padded with zeros, and kept as it is when it
    has that length.  When [Stage] fails the identifier is all zeros and
    the error is the one of [Stage], wrapped: an error of the validation
    reaches the caller only through [Stage]. *)
Theorem prepareData_digest txs st :
  exists t data id err st',
    run env (prepareData s txs) st = (t, Done (data, id, err), st')
    /\ length id = DigestLength
    /\ match staged t with
       | [inl root] =>
           err = None /\ id = copy zeroDigest root
           /\ (length root = DigestLength -> id = root)
       | [inr cause] =>
           err = Some (Errorf "staging tree failed" cause) /\ id = zeroDigest
       | _ => False
       end.
Proof.
  assert (Hz : length zeroDigest = DigestLength) by apply repeat_length.
  unfold prepareData. repeat step.
  all: cbn; do 5 eexists; split; [reflexivity |].
  all: rewrite ?copy_length; split; [exact Hz |].
  all: repeat split; intros H; apply copy_whole; rewrite H, Hz; reflexivity.
Qed.

(** X4: [wakeUp] makes one RPC at most.  If it accepts the call, [wakeUp]
    returns nil whatever the participants answer: each response with an
    error gives one warning and nothing else.  Otherwise [wakeUp] returns
    an error and logs nothing. *)
Theorem wakeUp_tolerates_failures ctx roster st :
  match rpc_answers (trace (run env (wakeUp s ctx roster) st)) with
  | [inl resps] =>
      outcome (run env (wakeUp s ctx roster) st) = Done None
      /\ logged (trace (run env (wakeUp s ctx roster) st))
         = repeat "wake up failed" (length (failures resps))
  | [inr err] =>
      outcome (run env (wakeUp s ctx roster) st)
      = Done (Some (Errorf "rpc failed" err))
      /\ logged (trace (run env (wakeUp s ctx roster) st)) = []
  | [] =>
      (exists err, outcome (run env (wakeUp s ctx roster) st) = Done (Some err))
      /\ logged (trace (run env (wakeUp s ctx roster) st)) = []
  | _ => False
  end.
Proof.
  unfold trace, outcome, wakeUp. repeat step.
  all: unfold rpc_answers, logged; cbn;
    rewrite ?pick_all_app, ?(pick_all_logs _ _ rpc_answer_of_log)
      by apply log_failures_logs; cbn.
  all: try (split; [eexists; reflexivity | reflexivity]).
  split; [reflexivity |]. rewrite app_nil_r. apply logged_log_failures.
Qed.

End Preparation.

(** ** What the goroutines never do *)

Lemma Ctx_eqb_refl c : Ctx_eqb c c = true.
Proof.
  induction c as [| p IH | p IH d]; cbn; auto.
  rewrite IH, Z.eqb_refl. reflexivity.
Qed.

Lemma Ctx_eqb_eq a b : Ctx_eqb a b = true -> a = b.
Proof.
  revert b; induction a as [| p IH | p IH d]; intros [| q | q e]; cbn;
    try discriminate; auto.
  - intros H. f_equal. auto.
  - intros H. apply andb_prop in H. destruct H as [H1 H2].
    apply Z.eqb_eq in H2. f_equal; auto.
Qed.

Lemma log_failures_all (P : Action -> bool) msg resps :
  (forall err, P (Did (logger Warn [FErr err] msg) tt) = true) ->
  forallb P (log_failures msg resps) = true.
Proof.
  intros H. unfold log_failures.
  induction resps as [| [m | err] resps IH]; cbn; auto.
  rewrite H, IH. reflexivity.
Qed.

Lemma leader_action_round ctx' a : leader_action a = true -> round_action ctx' a = true.
Proof.
  destruct a as [X e x | | | ]; try discriminate.
  destruct e; cbn; try discriminate; auto.
Qed.

Lemma round_action_main ctx0 d a :
  round_action (WithTimeout ctx0 d) a = true -> main_action a = true.
Proof.
  destruct a as [X e x | X op b x c | X op b | ]; cbn; try discriminate.
  - destruct e; cbn; try discriminate; auto.
  - destruct op; try discriminate; auto.
  - destruct op; try discriminate; auto.
Qed.

Lemma forallb_impl A (P Q : A -> bool) l :
  (forall a, P a = true -> Q a = true) -> forallb P l = true -> forallb Q l = true.
Proof.
  intros H; induction l as [| a l IH]; cbn; auto.
  intros H'. apply andb_prop in H'. destruct H' as [Ha Hl].
  rewrite (H a Ha), (IH Hl). reflexivity.
Qed.

(** Computes [forallb] on a trace that contains drained responses. *)
Ltac all_actions :=
  repeat first [ rewrite forallb_app
               | rewrite log_failures_all by reflexivity
               | rewrite Ctx_eqb_refl
               | rewrite Z.eqb_refl
               | progress cbn ].

Section Never.

Context (W : Type) (env : Env W) (s : Service).

Lemma doPBFT_leader_actions ctx st :
  forallb leader_action (trace (run env (doPBFT s ctx) st)) = true.
Proof.
  unfold trace, doPBFT, prepareData, wakeUp, NewBlock.
  repeat step.
  all: all_actions; reflexivity.
Qed.

Lemma doRound_wait_only_rounds ctx roster leader k st :
  forallb (round_action (WithTimeout ctx (timeout s)))
    (trace (run env (doRound_wait s ctx roster leader k) st)) = true
  /\ outcome (run env (doRound_wait s ctx roster leader k) st) <> Panic.
Proof.
  revert st. induction k as [| k IH]; intros st;
    unfold trace, outcome in *; cbn [doRound_wait];
    destruct (Equal (me s) leader); try (cbn; split; [reflexivity | discriminate]).
  cbn. scheduled. unfold chan_sem.
  destruct (choose _ _) as [[] |]; cbn; try (split; [reflexivity | discriminate]).
  step. destruct x. step. destruct x as [view | err].
  - step. destruct x as [resps | err].
    + step. step. step.
      destruct (await_initial x0 x).
      * step. destruct x1. step. destruct x1.
        match goal with
        | |- context [run env (doRound_wait s ctx roster leader k) ?st9] =>
            specialize (IH st9);
            destruct (run env (doRound_wait s ctx roster leader k) st9)
              as [[t' o'] st']
        end.
        cbn in IH. destruct IH as [IH1 IH2].
        all_actions. rewrite IH1. split; [reflexivity | exact IH2].
      * step. destruct x1. all_actions. split; [reflexivity | discriminate].
    + step. destruct x. all_actions. split; [reflexivity | discriminate].
  - step. destruct x. all_actions. split; [reflexivity | discriminate].
Qed.

(** [doRound] cancels no context but the one of its timeout, removes
    nothing from the pool, starts no goroutine, and makes no channel
    statement but its [select]. *)
Lemma doRound_only_rounds ctx k st :
  forallb (round_action (WithTimeout ctx (timeout s)))
    (trace (run env (doRound s ctx k) st)) = true
  /\ outcome (run env (doRound s ctx k) st) <> Panic.
Proof.
  unfold trace, outcome, doRound.
  step. destruct x as [roster | err]; [| cbn; split; [reflexivity | discriminate]].
  step. destruct x as [leader | err]; [| cbn; split; [reflexivity | discriminate]].
  cbn. rewrite run_bind.
  pose proof (doRound_wait_only_rounds ctx roster leader k st1) as [H1 H2].
  unfold trace, outcome in H1, H2.
  destruct (run env (doRound_wait s ctx roster leader k) st1) as [[t o] st2].
  cbn in H1, H2.
  destruct o as [[r |] | | | ]; cbn; try (split; [exact H1 | congruence]).
  - rewrite app_nil_r. split; [exact H1 | discriminate].
  - unfold doRound_lead.
    step. step. destruct x0. step. destruct x0 as [err |].
    + step. destruct x0. all_actions. rewrite H1. split; [reflexivity | discriminate].
    + step. step. destruct x1. cbn.
      repeat match goal with
      | |- context [run env (bind ?p ?f) ?st] => rewrite (run_bind env p f st)
      end.
      match goal with
      | |- context [run env (doPBFT s ?c) ?st'] =>
          pose proof (doPBFT_leader_actions c st') as Hl;
          destruct (doPBFT_returns W env s c st') as (tp & err & st'' & Hrun);
          rewrite Hrun in Hl |- *
      end.
      cbn in Hl.
      apply forallb_impl with (Q := round_action (WithTimeout ctx (timeout s))) in Hl;
        [| apply leader_action_round].
      destruct err as [err |]; cbn; step; destruct x1; all_actions;
        rewrite H1, Hl; split; try reflexivity; discriminate.
Qed.

(** X5: [main] and the rounds it runs never remove a transaction from the
    pool, never start a goroutine, never call the watcher or the feed of
    the block store; on the channels they only make selects: they send
    nothing, close nothing, and do not panic. *)
Theorem main_only_selects k n st :
  forallb main_action (trace (run env (main s k n) st)) = true
  /\ outcome (run env (main s k n) st) <> Panic.
Proof.
  assert (Hloop : forall n st,
             forallb main_action (trace (run env (main_loop s k n) st)) = true
             /\ outcome (run env (main_loop s k n) st) <> Panic).
  { clear n st. induction n as [| n IH]; intros st; unfold trace, outcome in *; cbn.
    - split; [reflexivity | discriminate].
    - scheduled. unfold chan_sem. cbn. destruct (closing (snd st0)).
      + step. cbn. split; [reflexivity | discriminate].
      + rewrite run_bind.
        pose proof (doRound_only_rounds (WithCancel Background) k (fst st0, snd st0))
          as [H1 H2].
        unfold trace, outcome in H1, H2.
        destruct (run env (doRound s (WithCancel Background) k) (fst st0, snd st0))
          as [[t o] st1].
        cbn in H1, H2.
        apply forallb_impl with (Q := main_action) in H1;
          [| apply round_action_main].
        destruct o as [err | | | ]; cbn; try (split; [exact H1 | congruence]).
        step. destruct err as [err |]; cbn.
        * rewrite forallb_app, H1. split; [reflexivity | discriminate].
        * specialize (IH st2).
          destruct (run env (main_loop s k n) st2) as [[t' o'] st3].
          cbn in IH. destruct IH as [IH1 IH2].
          cbn. rewrite forallb_app, H1. cbn. split; [exact IH1 | exact IH2]. }
  unfold trace, outcome, main. cbn.
  scheduled. unfold chan_sem.
  destruct (choose _ _) as [[] |]; cbn; try (split; [reflexivity | discriminate]).
  unfold refreshRoster. step. destruct x as [roster | err]; cbn;
    [| split; [reflexivity | discriminate]].
  step. destruct x as [err |]; cbn; [split; [reflexivity | discriminate] |].
  step.
  specialize (Hloop n st3). unfold trace, outcome in Hloop.
  destruct (run env (main_loop s k n) st3) as [[t' o'] st4].
  cbn in *. exact Hloop.
Qed.

End Never.

(** ** What a leader proposes *)

Section Proposal.

Context (W : Type) (env : Env W) (s : Service).

(** X6: [doPBFT] does nothing but call the pool (to gather), the
    context (for its error), the tree, the validation, the block store
    (for its length), the hash factory, the state machine (to prepare),
    the roster, the signing actor, the RPC, the genesis store and the
    logger: it makes no statement on the channels of the service, cancels
    no context, starts no goroutine, and removes nothing from the pool.
    An error that it returns is the error of the context, as [Err]
    returns it after the pool has been asked, or the error of a
    collaborator wrapped with the step that failed. *)
Theorem doPBFT_only_leads ctx st :
  forallb leader_action (trace (run env (doPBFT s ctx) st)) = true
  /\ match outcome (run env (doPBFT s ctx) st) with
     | Done (Some e) =>
         leader_error e = true
         \/ exists txs e0,
             trace (run env (doPBFT s ctx) st)
             = [Did (pool_Gather ctx (mkPoolConfig 1)) txs;
                Did (ctx_Err ctx) (Some e0); Did (ctx_Err ctx) (Some e)]
     | _ => True
     end.
Proof.
  split; [apply doPBFT_leader_actions |].
  unfold trace, outcome, doPBFT, prepareData, wakeUp, NewBlock.
  repeat step.
  all: cbn; try exact I; try (left; reflexivity).
  right. do 2 eexists. reflexivity.
Qed.

(** X7: when the context of the round is alive, the batch that the
    pool gave is validated on the snapshot of the staged tree and
    [Stage] returns a root, [doPBFT] reads the length of the chain and
    builds a block whose payload is the data that the validation
    returned and whose tree root is that root, as a digest; if the hash
    factory gives its digest this block is proposed to the state machine,
    and no other. *)
Theorem doPBFT_proposes_what_it_prepared ctx st txs st1 st2 snap st3 data st4 root st5 :
  world env (pool_Gather ctx (mkPoolConfig 1)) st = (txs, st1) ->
  world env (ctx_Err ctx) st1 = (None, st2) ->
  world env tree_Stage_enter st2 = (Some snap, st3) ->
  world env (val_Validate snap txs) st3 = (inl data, st4) ->
  world env (tree_Stage_leave (Some None)) st4 = (inl root, st5) ->
  exists len h t,
    trace (run env (doPBFT s ctx) st)
    = Did (pool_Gather ctx (mkPoolConfig 1)) txs :: Did (ctx_Err ctx) None
        :: Did tree_Stage_enter (Some snap)
        :: Did (val_Validate snap txs) (inl data)
        :: Did (tree_Stage_leave (Some None)) (inl root)
        :: Did blocks_Len len
        :: Did (hashFactory_digest (add64 len 1) (Some data) (copy zeroDigest root)) h
        :: t
    /\ match h with
       | inl digest =>
           exists answer t1,
             t = Did (pbftsm_Prepare
                        (mkBlock (add64 len 1) (Some data) (copy zeroDigest root) digest))
                   answer :: t1
             /\ proposed (trace (run env (doPBFT s ctx) st))
                = [mkBlock (add64 len 1) (Some data) (copy zeroDigest root) digest]
       | inr err =>
           t = []
           /\ outcome (run env (doPBFT s ctx) st)
              = Done (Some (Errorf "creating block failed" err))
       end.
Proof.
  intros E1 E2 E3 E4 E5.
  unfold trace, outcome, doPBFT, prepareData.
  cbn [bind call run]. rewrite E1. cbn [bind call run]. rewrite E2.
  cbn [bind call run]. rewrite E3. cbn [bind call run]. rewrite E4.
  cbn [bind call run]. rewrite E5. cbn [orFail bind call run].
  answer. unfold NewBlock, wakeUp. cbn [bind call run]. rewrite wrap64_add64.
  repeat step.
  all: unfold proposed;
    repeat first [ rewrite pick_all_app
                 | rewrite (pick_all_logs _ _ proposed_of_log) by apply log_failures_logs
                 | progress cbn ].
  all: do 3 eexists; split; [reflexivity |].
  all: try (split; reflexivity).
  all: do 2 eexists; split; reflexivity.
Qed.

End Proposal.

(** ** Contexts are released *)

Arguments Ctx_eqb !a !b : simpl nomatch.

Lemma leader_action_reads a :
  leader_action a = true ->
  cancelled_of a = None /\ timed_out a = false /\ round_started_of a = None.
Proof.
  destruct a as [X e x | | | ]; try discriminate.
  destruct e; cbn; try discriminate; auto.
  destruct lvl; destruct fields as [| [] [|]]; cbn; try discriminate; auto.
Qed.

Lemma leader_reads t :
  forallb leader_action t = true ->
  cancelled t = [] /\ filter timed_out t = [] /\ rounds_started t = [].
Proof.
  unfold cancelled, rounds_started.
  induction t as [| a t IH]; cbn; [auto |].
  intros H. apply andb_prop in H. destruct H as [Ha Ht].
  destruct (leader_action_reads a Ha) as (-> & -> & ->). auto.
Qed.

Lemma log_failures_lead msg resps :
  forallb leader_action (log_failures msg resps) = true.
Proof. apply log_failures_all. reflexivity. Qed.

Lemma round_action_reads c d a :
  round_action (WithTimeout c d) a = true ->
  is_iteration a = false
  /\ match cancelled_of a with
     | Some c' => c' = WithTimeout c d
     | None => True
     end.
Proof.
  destruct a as [X e x | X op b x c' | X op b | ]; cbn; try discriminate; auto.
  - destruct e; cbn; auto. intros H. split; [reflexivity |].
    apply Ctx_eqb_eq. exact H.
  - destruct op; try discriminate; auto.
Qed.

Lemma round_reads c d t :
  forallb (round_action (WithTimeout c d)) t = true ->
  filter is_iteration t = [] /\ released (WithCancel Background) t = 0.
Proof.
  unfold released, cancelled.
  induction t as [| a t IH]; cbn; [auto |].
  intros H. apply andb_prop in H. destruct H as [Ha Ht].
  destruct (round_action_reads c d a Ha) as [-> Hc].
  destruct (IH Ht) as [IH1 IH2].
  destruct (cancelled_of a) as [c' |]; [subst c'; cbn |]; auto.
Qed.

Lemma released_app c t1 t2 : released c (t1 ++ t2) = released c t1 + released c t2.
Proof.
  unfold released, cancelled. rewrite pick_all_app, filter_app, length_app.
  reflexivity.
Qed.

(** Computes the readings of a trace made of calls of the leader. *)
Ltac lead_reads :=
  repeat first [ rewrite pick_all_app
               | rewrite filter_app
               | rewrite length_app
               | rewrite (proj1 (leader_reads _ (log_failures_lead _ _)))
               | rewrite (proj1 (proj2 (leader_reads _ (log_failures_lead _ _))))
               | rewrite (proj2 (proj2 (leader_reads _ (log_failures_lead _ _))))
               | progress cbn ].

Section Release.

Context (W : Type) (env : Env W) (s : Service).

Lemma doRound_wait_releases ctx roster leader k st :
  cancelled (trace (run env (doRound_wait s ctx roster leader k) st))
  = repeat (WithTimeout ctx (timeout s))
      (length (filter timed_out
                 (trace (run env (doRound_wait s ctx roster leader k) st))))
  /\ rounds_started (trace (run env (doRound_wait s ctx roster leader k) st)) = [].
Proof.
  revert st. induction k as [| k IH]; intros st;
    unfold trace in *; cbn [doRound_wait];
    destruct (Equal (me s) leader); try (cbn; split; reflexivity).
  cbn. scheduled. unfold chan_sem.
  destruct (choose _ _) as [[] |]; cbn; try (split; reflexivity).
  step. destruct x. step. destruct x as [view | err].
  - step. destruct x as [resps | err].
    + step. step. step.
      destruct (await_initial x0 x).
      * step. destruct x1. step. destruct x1.
        match goal with
        | |- context [run env (doRound_wait s ctx roster leader k) ?st9] =>
            specialize (IH st9);
            destruct (run env (doRound_wait s ctx roster leader k) st9)
              as [[t' o'] st']
        end.
        cbn in IH. destruct IH as [IH1 IH2].
        unfold cancelled, rounds_started in *. lead_reads.
        rewrite IH1, IH2. split; reflexivity.
      * step. destruct x1. unfold cancelled, rounds_started. lead_reads.
        split; reflexivity.
    + step. destruct x. cbn. split; reflexivity.
  - step. destruct x. cbn. split; reflexivity.
Qed.

(** X8: Every context that [doRound] derives is cancelled before it returns
    or waits again, and it cancels no other: the cancellations are those
    of the context with the timeout of the round, one for each [select]
    left because the timer fired and one for the round that the node
    led. *)
Theorem doRound_releases_contexts ctx k st :
  cancelled (trace (run env (doRound s ctx k) st))
  = repeat (WithTimeout ctx (timeout s))
      (length (filter timed_out (trace (run env (doRound s ctx k) st)))
       + length (rounds_started (trace (run env (doRound s ctx k) st)))).
Proof.
  unfold trace, doRound.
  step. destruct x as [roster | err]; [| reflexivity].
  step. destruct x as [leader | err]; [| reflexivity].
  cbn. rewrite run_bind.
  pose proof (doRound_wait_releases ctx roster leader k st1) as [H1 H2].
  unfold trace in H1, H2.
  destruct (run env (doRound_wait s ctx roster leader k) st1) as [[t o] st2].
  cbn in H1, H2.
  destruct o as [[r |] | | | ]; cbn;
    try (unfold cancelled, rounds_started in *; rewrite H2, Nat.add_0_r; exact H1).
  - unfold cancelled, rounds_started in *. lead_reads.
    rewrite H2, app_nil_r. cbn. rewrite !Nat.add_0_r. exact H1.
  - unfold doRound_lead.
    step. step. destruct x0. step. destruct x0 as [err |].
    + step. destruct x0. unfold cancelled, rounds_started in *. lead_reads.
      rewrite H1, H2. cbn. rewrite ?Nat.add_0_r, repeat_app. reflexivity.
    + step. step. destruct x1. cbn.
      repeat match goal with
      | |- context [run env (bind ?p ?f) ?st] => rewrite (run_bind env p f st)
      end.
      match goal with
      | |- context [run env (doPBFT s ?c) ?st'] =>
          pose proof (doPBFT_leader_actions W env s c st') as Hl;
          destruct (doPBFT_returns W env s c st') as (tp & err & st'' & Hrun);
          unfold trace in Hl; rewrite Hrun in Hl |- *
      end.
      cbn in Hl. apply leader_reads in Hl. destruct Hl as (Hl1 & Hl2 & Hl3).
      unfold cancelled, rounds_started in *.
      destruct err as [err |]; cbn; step; destruct x1; lead_reads;
        rewrite H1, H2, Hl1, Hl2, Hl3; cbn; rewrite ?Nat.add_0_r, repeat_app;
        reflexivity.
Qed.

Lemma main_loop_releases k n st r :
  outcome (run env (main_loop s k n) st) = Done r ->
  released (WithCancel Background) (trace (run env (main_loop s k n) st))
  = length (filter is_iteration (trace (run env (main_loop s k n) st))).
Proof.
  revert st; induction n as [| n IH]; intros st; unfold trace, outcome in *; cbn.
  - discriminate.
  - scheduled. unfold chan_sem. cbn. destruct (closing (snd st0)).
    + step. cbn. reflexivity.
    + rewrite run_bind.
      pose proof (doRound_only_rounds W env s (WithCancel Background) k (fst st0, snd st0))
        as [H1 _].
      unfold trace in H1.
      destruct (run env (doRound s (WithCancel Background) k) (fst st0, snd st0))
        as [[t o] st1].
      cbn in H1. apply round_reads in H1. destruct H1 as [Hi Hr].
      destruct o as [err | | | ]; cbn; try discriminate.
      step. destruct err as [err |]; cbn.
      * intros _. unfold released, cancelled in *. cbn.
        rewrite pick_all_app, !filter_app, !length_app, Hi, Hr. reflexivity.
      * specialize (IH st2).
        destruct (run env (main_loop s k n) st2) as [[t' o'] st3].
        cbn in IH |- *. intros Ho. specialize (IH Ho).
        unfold released, cancelled in *. cbn.
        rewrite pick_all_app, !filter_app, !length_app, Hi, Hr. cbn.
        rewrite IH. reflexivity.
Qed.

(** X9: When [main] returns, the context made at each iteration of its loop
    has been cancelled: as many cancellations of that context as
    iterations, whether the iteration found [closing] closed, or its
    round ended well or with an error. *)
Theorem main_releases_contexts k n st r :
  outcome (run env (main s k n) st) = Done r ->
  released (WithCancel Background) (trace (run env (main s k n) st))
  = length (filter is_iteration (trace (run env (main s k n) st))).
Proof.
  unfold trace, outcome, main. cbn.
  scheduled. unfold chan_sem.
  destruct (choose _ _) as [[] |]; cbn; try discriminate; try reflexivity.
  unfold refreshRoster. step. destruct x as [roster | err]; cbn; [| reflexivity].
  step. destruct x as [err |]; cbn; [reflexivity |].
  step.
  pose proof (main_loop_releases k n st3 r) as H. unfold trace, outcome in H.
  destruct (run env (main_loop s k n) st3) as [[t' o'] st4].
  cbn in *. exact H.
Qed.

(** X10: [main] returns nil only right after a [select] that found [closing]
    closed: the one that waits for the start, or the one at the head of
    an iteration, followed by the cancellation of the context of that
    iteration.  A round that ends well does not end [main]. *)
Theorem main_nil_only_when_closing k n st :
  outcome (run env (main s k n) st) = Done None ->
  exists t0 a t1,
    trace (run env (main s k n) st) = t0 ++ a :: t1
    /\ saw_closing a = true
    /\ (t1 = [] \/ t1 = [Did (cancel (WithCancel Background)) tt]).
Proof.
  assert (Hloop : forall n st,
             outcome (run env (main_loop s k n) st) = Done None ->
             exists t0 a t1,
               trace (run env (main_loop s k n) st) = t0 ++ a :: t1
               /\ saw_closing a = true
               /\ (t1 = [] \/ t1 = [Did (cancel (WithCancel Background)) tt])).
  { clear n st. induction n as [| n IH]; intros st; unfold trace, outcome in *; cbn.
    - discriminate.
    - scheduled. unfold chan_sem. cbn. destruct (closing (snd st0)) eqn:Hc.
      + step. destruct x. cbn. intros _.
        exists [], (OnChan select_closing_default (snd st0) true (snd st0)),
          [Did (cancel (WithCancel Background)) tt].
        split; [reflexivity |]. split; [reflexivity | right; reflexivity].
      + rewrite run_bind.
        destruct (run env (doRound s (WithCancel Background) k) (fst st0, snd st0))
          as [[t o] st1].
        destruct o as [err | | | ]; cbn; try discriminate.
        step. destruct err as [err |]; cbn; [discriminate |].
        specialize (IH st2).
        destruct (run env (main_loop s k n) st2) as [[t' o'] st3].
        cbn in IH |- *. intros Ho.
        destruct (IH Ho) as (t0 & a & t1 & -> & Ha & Ht1).
        exists (OnChan select_closing_default (snd st0) false (snd st0)
                  :: t ++ Did (cancel (WithCancel Background)) x :: t0), a, t1.
        split; [cbn; rewrite <- app_assoc; reflexivity |].
        split; assumption. }
  unfold trace, outcome, main. cbn.
  scheduled. unfold chan_sem.
  destruct (choose _ _) as [[] |] eqn:Hch; cbn; try discriminate.
  - unfold refreshRoster. step. destruct x as [roster | err]; cbn; [| discriminate].
    step. destruct x as [err |]; cbn; [discriminate |].
    step. destruct x.
    specialize (Hloop n st3). unfold trace, outcome in Hloop.
    destruct (run env (main_loop s k n) st3) as [[t' o'] st4].
    cbn in *. intros Ho.
    destruct (Hloop Ho) as (t0 & a & t1 & -> & Ha & Ht1).
    eexists (_ :: _ :: _ :: _ :: t0), a, t1.
    split; [reflexivity |]. split; assumption.
  - intros _.
    exists [], (OnChan select_start (snd st0) case_closing (snd st0)), [].
    split; [reflexivity |]. split; [reflexivity | left; reflexivity].
Qed.

End Release.

(** ** A node that is not the leader *)

Section Follower.

Context (W : Type) (env : Env W) (s : Service).

Lemma doRound_wait_proposes_nothing ctx roster leader k st :
  phases (trace (run env (doRound_wait s ctx roster leader k) st)) = []
  /\ proposed (trace (run env (doRound_wait s ctx roster leader k) st)) = []
  /\ rounds_started (trace (run env (doRound_wait s ctx roster leader k) st)) = [].
Proof.
  revert st. induction k as [| k IH]; intros st;
    unfold trace in *; cbn [doRound_wait];
    destruct (Equal (me s) leader); try (cbn; repeat split; reflexivity).
  cbn. scheduled. unfold chan_sem.
  destruct (choose _ _) as [[] |]; cbn; try (repeat split; reflexivity).
  step. destruct x. step. destruct x as [view | err].
  - step. destruct x as [resps | err].
    + step. step. step.
      destruct (await_initial x0 x).
      * step. destruct x1. step. destruct x1.
        match goal with
        | |- context [run env (doRound_wait s ctx roster leader k) ?st9] =>
            specialize (IH st9);
            destruct (run env (doRound_wait s ctx roster leader k) st9)
              as [[t' o'] st']
        end.
        cbn in IH. destruct IH as (IH1 & IH2 & IH3).
        unfold phases, proposed, rounds_started in *. cbn.
        rewrite !pick_all_app,
          (pick_all_logs _ _ phase_of_log), (pick_all_logs _ _ proposed_of_log)
          by apply log_failures_logs.
        rewrite (proj2 (proj2 (leader_reads _ (log_failures_lead _ _)))).
        cbn. rewrite IH1, IH2, IH3. repeat split; reflexivity.
      * step. destruct x1.
        unfold phases, proposed, rounds_started in *. cbn.
        rewrite !pick_all_app,
          (pick_all_logs _ _ phase_of_log), (pick_all_logs _ _ proposed_of_log)
          by apply log_failures_logs.
        rewrite (proj2 (proj2 (leader_reads _ (log_failures_lead _ _)))).
        repeat split; reflexivity.
    + step. destruct x. cbn. repeat split; reflexivity.
  - step. destruct x. cbn. repeat split; reflexivity.
Qed.

(** X11: The leader is read once, before the loop of [doRound].  A node that
    is not that leader does not lead in that round, however many views
    change meanwhile: it starts no round of its own, proposes no block and
    goes through no phase of PBFT, and the round only ends from inside
    the loop, for an event, a closing request or a failed view change. *)
Theorem follower_never_leads ctx k st roster st1 leader st2 :
  world env getCurrentRoster st = (inl roster, st1) ->
  world env pbftsm_GetLeader st1 = (inl leader, st2) ->
  Equal (me s) leader = false ->
  rounds_started (trace (run env (doRound s ctx k) st)) = []
  /\ proposed (trace (run env (doRound s ctx k) st)) = []
  /\ phases (trace (run env (doRound s ctx k) st)) = []
  /\ trace (run env (doRound s ctx k) st)
     = Did getCurrentRoster (inl roster) :: Did pbftsm_GetLeader (inl leader)
         :: trace (run env (doRound_wait s ctx roster leader k) st2).
Proof.
  intros E1 E2 Hl.
  pose proof (doRound_wait_follower W env s ctx roster leader k st2 Hl) as Hf.
  destruct (doRound_wait_proposes_nothing ctx roster leader k st2) as (H1 & H2 & H3).
  unfold doRound, trace, outcome in *. cbn [bind call run].
  rewrite E1. cbn [orReturn bind call run]. rewrite E2. cbn [orReturn].
  rewrite run_bind.
  destruct (run env (doRound_wait s ctx roster leader k) st2) as [[t o] st3].
  cbn in H1, H2, H3, Hf.
  destruct o as [[r |] | | | ]; cbn; try contradiction;
    rewrite ?app_nil_r; unfold phases, proposed, rounds_started in *; cbn;
    rewrite H1, H2, H3; repeat split; reflexivity.
Qed.

End Follower.

(** ** The errors of a round *)

Section RoundErrors.

Context (W : Type) (env : Env W) (s : Service).

Lemma doRound_wait_errors ctx roster leader k st :
  match outcome (run env (doRound_wait s ctx roster leader k) st) with
  | Done (Some (Some e)) => round_error e = true
  | _ => True
  end.
Proof.
  revert st. induction k as [| k IH]; intros st;
    unfold outcome in *; cbn [doRound_wait];
    destruct (Equal (me s) leader); try (cbn; exact I).
  cbn. scheduled. unfold chan_sem.
  destruct (choose _ _) as [[] |]; cbn; try exact I.
  step. destruct x. step. destruct x as [view | err].
  - step. destruct x as [resps | err].
    + step. step. step.
      destruct (await_initial x0 x).
      * step. destruct x1. step. destruct x1.
        match goal with
        | |- context [run env (doRound_wait s ctx roster leader k) ?st9] =>
            specialize (IH st9);
            destruct (run env (doRound_wait s ctx roster leader k) st9)
              as [[t' o'] st']
        end.
        exact IH.
      * step. reflexivity.
    + step. reflexivity.
  - step. reflexivity.
Qed.

(** X12: An error that [doRound] returns tells which step failed: it is
    "viewchange failed", when the watch of the state machine ended before
    the initial state, or the error of a collaborator wrapped as "reading
    roster", "reading leader", "pbft expire failed", "rpc failed", "sync
    failed" or "pbft failed".  The error of a collaborator is never
    returned as it is. *)
Theorem doRound_errors ctx k st :
  match outcome (run env (doRound s ctx k) st) with
  | Done (Some e) => round_error e = true
  | _ => True
  end.
Proof.
  unfold outcome, doRound.
  step. destruct x as [roster | err]; [| reflexivity].
  step. destruct x as [leader | err]; [| reflexivity].
  cbn. rewrite run_bind.
  pose proof (doRound_wait_errors ctx roster leader k st1) as H.
  unfold outcome in H.
  destruct (run env (doRound_wait s ctx roster leader k) st1) as [[t o] st2].
  cbn in H.
  destruct o as [[[e |] |] | | | ]; cbn; try exact I; try exact H.
  unfold doRound_lead.
  step. step. destruct x0. step. destruct x0 as [err |].
  - step. reflexivity.
  - step. step. destruct x1. cbn.
    repeat match goal with
    | |- context [run env (bind ?p ?f) ?st] => rewrite (run_bind env p f st)
    end.
    match goal with
    | |- context [run env (doPBFT s ?c) ?st'] =>
        destruct (doPBFT_returns W env s c st') as (tp & err & st'' & Hrun);
        rewrite Hrun
    end.
    destruct err as [err |]; cbn; step; [reflexivity | exact I].
Qed.

End RoundErrors.

(** ** The feed of the blocks *)

Section Feed.

Context (W : Type) (env : Env W) (s : Service).

Lemma run_removals_exact (l : list TransactionResult) st :
  exists t st',
    run env (range l (fun res => call (pool_Remove (GetTransaction res)) ;; Ret tt)) st
    = (t, Done tt, st')
    /\ removed t = map GetTransaction l /\ offered t = [].
Proof.
  set (body := fun res : TransactionResult =>
                 call (pool_Remove (GetTransaction res)) ;; Ret tt).
  revert st; induction l as [| res l IH]; intros st.
  - exists [], st; repeat split; reflexivity.
  - cbn [range]. rewrite run_bind. unfold body at 1. cbn [run bind call].
    destruct (world env (pool_Remove (GetTransaction res)) st) as [x st0].
    destruct (IH st0) as (t & st' & -> & Hr & Ho).
    exists (Did (pool_Remove (GetTransaction res)) x :: t), st'.
    unfold removed, offered in *. cbn. rewrite Hr, Ho. repeat split; reflexivity.
Qed.

Lemma run_Notify_reads event observers st t o st' :
  run env (range observers (fun obs => NotifyCallback obs event)) st = (t, o, st') ->
  removed t = [] /\ offered t = []
  /\ (o = Done tt \/ o = Stuck /\ existsb waits_for_watcher t = true).
Proof.
  set (body := fun obs : observer => NotifyCallback obs event).
  revert st t o st'; induction observers as [| obs rest IH]; intros st t o st'.
  - cbn. intros H; injection H as <- <- _. auto.
  - cbn [range]. rewrite run_bind.
    unfold body at 1, NotifyCallback. cbn [chan run].
    scheduled. unfold chan_sem.
    destruct (nth_error (watch_chs (snd st0)) (ch obs)) as [buf |];
      [| cbn; intros H; injection H as <- <- _; auto].
    destruct (Nat.ltb (length buf) watch_cap);
      [| cbn; intros H; injection H as <- <- _; auto].
    cbn [fst snd].
    destruct (run env (range rest body) _) as [[t1 o1] st1] eqn:Hrun.
    cbn. intros H; injection H as <- <- _.
    apply IH in Hrun. exact Hrun.
Qed.

(** What one iteration of the loop of [watchBlocks] does for a link:
    without a payload the goroutine panics at once; otherwise the
    transactions of the block are removed from the pool in their order,
    its event is offered once, and the iteration ends unless a watcher
    makes it wait. *)
Lemma run_watchBlocks_body link st t o st' :
  run env (watchBlocks_body s link) st = (t, o, st') ->
  match GetData (GetTo link) with
  | None => t = [] /\ o = Panic
  | Some _ =>
      removed t = link_txs link /\ offered t = [link_event link]
      /\ (o = Done tt \/ o = Stuck /\ existsb waits_for_watcher t = true)
  end.
Proof.
  unfold watchBlocks_body, link_txs, link_event.
  destruct (GetData (GetTo link)) as [data |];
    [| cbn; intros H; injection H as <- <- _; auto].
  cbv zeta. set (event := mkEvent (GetIndex (GetTo link))).
  destruct (run_removals_exact (GetTransactionResults data) st)
    as (removals & st1 & Hrm & Hr & Ho).
  rewrite run_bind, Hrm, run_bind.
  assert (Hrf : exists t err st2,
             run env (refreshRoster s) st1 = (t, Done err, st2)
             /\ removed t = [] /\ offered t = []).
  { unfold refreshRoster. repeat step.
    all: cbn; do 3 eexists; repeat split; reflexivity. }
  destruct Hrf as (tr & err & st2 & -> & Hr2 & Ho2).
  rewrite run_bind.
  assert (Hlog : exists tl st3,
             run env (match err with
                      | Some err => call (logger Error [FErr err] "roster refresh failed")
                      | None => Ret tt
                      end) st2 = (tl, Done tt, st3)
             /\ removed tl = [] /\ offered tl = []).
  { destruct err; cbn; [answer; destruct x |]; do 2 eexists; repeat split; reflexivity. }
  destruct Hlog as (tl & st3 & -> & Hr3 & Ho3).
  rewrite run_bind. cbn [chan run]. scheduled. rewrite chan_sem_offer.
  unfold watcher_Notify. cbn [bind call run]. answer.
  destruct (run env (range x (fun obs => NotifyCallback obs event)) st4)
    as [[t1 o1] st5] eqn:Hrun.
  apply run_Notify_reads in Hrun. destruct Hrun as (Hr4 & Ho4 & Hout).
  cbn. intros H; injection H as <- <- _.
  unfold removed, offered in *.
  rewrite !pick_all_app. cbn.
  rewrite Hr, Ho, Hr2, Ho2, Hr3, Ho3, Hr4, Ho4. cbn. rewrite app_nil_r.
  repeat split. destruct Hout as [-> | [-> Hw]]; [left; reflexivity | right].
  split; [reflexivity |].
  rewrite !existsb_app. cbn. rewrite Hw, !orb_true_r. reflexivity.
Qed.

Lemma run_links links st t o st' :
  run env (range links (watchBlocks_body s)) st = (t, o, st') ->
  exists n,
    n <= length links
    /\ removed t = flat_map link_txs (firstn n links)
    /\ offered t = map link_event (firstn n links)
    /\ match o with
       | Done _ => n = length links
       | Stuck => existsb waits_for_watcher t = true
       | Panic => exists link, nth_error links n = Some link
                               /\ GetData (GetTo link) = None
       | Running => False
       end.
Proof.
  revert st t o st'; induction links as [| link links IH]; intros st t o st'.
  - cbn. intros H; injection H as <- <- _. exists 0. cbn. auto.
  - cbn [range]. rewrite run_bind.
    destruct (run env (watchBlocks_body s link) st) as [[tb ob] st1] eqn:Hb.
    apply run_watchBlocks_body in Hb.
    destruct (GetData (GetTo link)) as [data |] eqn:Hd.
    + destruct Hb as (Hr & Ho & [-> | [-> Hw]]).
      * destruct (run env (range links (watchBlocks_body s)) st1)
          as [[t' o'] st2] eqn:Hrun.
        apply IH in Hrun. destruct Hrun as (n & Hn & Hr' & Ho' & Hd').
        intros H; injection H as <- <- _.
        exists (S n). unfold removed, offered in *.
        rewrite !pick_all_app, Hr, Ho, Hr', Ho'. cbn.
        repeat split; [lia |].
        destruct o'; auto.
        rewrite existsb_app, Hd', orb_true_r. reflexivity.
      * intros H; injection H as <- <- _.
        exists 1. cbn. rewrite Hr, Ho, app_nil_r.
        repeat split; [lia | exact Hw].
    + destruct Hb as [-> ->]. intros H; injection H as <- <- _.
      exists 0. cbn. repeat split; [lia |]. exists link. auto.
Qed.

(** X13: [watchBlocks] starts the goroutine that cancels its context when the
    service closes, and then serves the links of the block store in their
    order.  For each link it removes the transactions of the block from
    the pool, in their order, and offers the event that carries the index
    of the block; a roster that cannot be refreshed does not stop it.
    All the links are served when [watchBlocks] returns; it stops early
    only when a watcher makes it wait, or on a block without a payload,
    where it panics. *)
Theorem watchBlocks_serves_links_in_order st :
  exists links t n,
    trace (run env (watchBlocks s) st)
    = Did (go (go_cancel_on_closing (WithCancel Background))) tt
        :: Did (blocks_Watch (WithCancel Background)) links :: t
    /\ n <= length links
    /\ removed t = flat_map link_txs (firstn n links)
    /\ offered t = map link_event (firstn n links)
    /\ match outcome (run env (watchBlocks s) st) with
       | Done _ => n = length links
       | Stuck => existsb waits_for_watcher t = true
       | Panic => exists link, nth_error links n = Some link
                               /\ GetData (GetTo link) = None
       | Running => False
       end.
Proof.
  unfold watchBlocks, trace, outcome. cbv zeta. cbn [bind call run].
  answer. destruct x. answer.
  destruct (run env (range x (watchBlocks_body s)) st1) as [[t o] st2] eqn:Hrun.
  apply run_links in Hrun. destruct Hrun as (n & Hn & Hr & Ho & Hd).
  cbn. exists x, t, n. repeat split; assumption.
Qed.

End Feed.

(** ** Watchers *)

Lemma nth_error_fresh A (l : list A) x : nth_error (l ++ [x]) (length l) = Some x.
Proof. rewrite nth_error_app2, Nat.sub_diag by lia. reflexivity. Qed.

Section Watchers.

Context (W : Type) (env : Env W) (s : Service).

(** Nobody but the goroutine at hand touches the channels. *)
Hypothesis undisturbed : leaves_channels env.

(** X14: The channel that [Watch] returns holds one event: the first event
    notified is delivered without waiting for the watcher, and the
    notification of a second one waits until the watcher has read the
    first. *)
Theorem Watch_holds_one_event ctx e1 e2 st :
  exists t c st1,
    run env (Watch s ctx) st = (t, Done c, st1)
    /\ outcome (run env (NotifyCallback (mkObserver c) e1) st1) = Done tt
    /\ nth_error
         (watch_chs (snd (final (run env (NotifyCallback (mkObserver c) e1) st1)))) c
       = Some [e1]
    /\ outcome (run env (NotifyCallback (mkObserver c) e2)
                  (final (run env (NotifyCallback (mkObserver c) e1) st1)))
       = Stuck.
Proof.
  destruct undisturbed as [Hw Ho].
  unfold Watch, NotifyCallback, outcome, final. cbn [bind chan call run].
  pose proof (Ho _ make_watch st) as H0.
  destruct (others env make_watch st) as [sch0 st0]. cbn [snd] in H0.
  unfold chan_sem at 1. cbn [fst snd].
  match goal with
  | |- context [world env (watcher_Add ?o) ?st'] =>
      pose proof (Hw _ (watcher_Add o) st') as H1;
      destruct (world env (watcher_Add o) st') as [[] st1]
  end.
  cbn [snd] in H1.
  match goal with
  | |- context [world env (go ?g) ?st'] =>
      pose proof (Hw _ (go g) st') as H2;
      destruct (world env (go g) st') as [[] st2]
  end.
  cbn [snd] in H2.
  do 3 eexists. split; [reflexivity |].
  match goal with
  | |- context [others env (send_obs ?o e1) st2] =>
      pose proof (Ho _ (send_obs o e1) st2) as H3;
      destruct (others env (send_obs o e1) st2) as [sch3 st3]
  end.
  cbn [snd] in H3.
  unfold chan_sem. cbn [ch].
  rewrite H3, H2, H1, H0. cbn [watch_chs set_watch_chs].
  rewrite nth_error_fresh. cbn [length Nat.ltb Nat.leb watch_cap app fst snd].
  split; [reflexivity |].
  split; [cbn; eapply nth_error_upd_nth; apply nth_error_fresh |].
  match goal with
  | |- context [others env (send_obs ?o e2) ?st'] =>
      pose proof (Ho _ (send_obs o e2) st') as H4;
      destruct (others env (send_obs o e2) st') as [sch4 st4]
  end.
  cbn [snd] in H4. rewrite H4. cbn [watch_chs set_watch_chs ch].
  erewrite nth_error_upd_nth by apply nth_error_fresh.
  reflexivity.
Qed.

(** The timer of the round is not heard of. *)
Hypothesis no_timeout : timer_silent env.

(** X15: A new block ends the round of a node that waits for the leader:
    once [watchBlocks] has offered the event of a block, whether it was
    taken or dropped because another one was pending, the [select] of
    [doRound] does not wait, and the round returns nil; no context is
    cancelled, as none was derived. *)
Theorem new_block_ends_follower_round ctx k e st roster st1 leader st2 :
  world env getCurrentRoster (final (run env (chan (offer_events e)) st))
  = (inl roster, st1) ->
  world env pbftsm_GetLeader st1 = (inl leader, st2) ->
  Equal (me s) leader = false ->
  outcome (run env (doRound s ctx (S k))
             (final (run env (chan (offer_events e)) st))) = Done None
  /\ cancelled (trace (run env (doRound s ctx (S k))
                         (final (run env (chan (offer_events e)) st)))) = [].
Proof.
  destruct undisturbed as [Hw Ho].
  assert (Hev : events (snd (final (run env (chan (offer_events e)) st))) <> []).
  { unfold final. cbn [chan run].
    destruct (others env (offer_events e) st) as [sch0 st0].
    rewrite chan_sem_offer. cbn [snd].
    destruct (Nat.ltb (length (events (snd st0))) events_cap) eqn:Hl; cbn.
    - destruct (events (snd st0)); discriminate.
    - apply Nat.ltb_ge in Hl. unfold events_cap in Hl.
      destruct (events (snd st0)); [cbn in Hl; lia | discriminate]. }
  set (woken := final (run env (chan (offer_events e)) st)) in *.
  intros E1 E2 Hl.
  pose proof (Hw _ getCurrentRoster woken) as H1. rewrite E1 in H1. cbn [snd] in H1.
  pose proof (Hw _ pbftsm_GetLeader st1) as H2. rewrite E2 in H2. cbn [snd] in H2.
  unfold doRound, trace, outcome. cbn [bind call run]. rewrite E1. cbn [orReturn bind call run].
  rewrite E2. cbn [orReturn]. rewrite run_bind.
  cbn [doRound_wait]. rewrite Hl. cbn [bind chan run].
  pose proof (Ho _ (select_round (timeout s)) st2) as H3.
  pose proof (no_timeout (timeout s) st2) as H4.
  destruct (others env (select_round (timeout s)) st2) as [sch3 st3].
  cbn [fst snd] in H3, H4.
  unfold chan_sem. rewrite H4, H3, H2, H1.
  destruct (events (snd woken)) as [| ev evs]; [contradiction |].
  cbn [length Nat.eqb negb when app].
  destruct (closing (snd woken)); cbn [when app choose length].
  - destruct (pick sch3 mod 2) as [| [| [| m]]]; cbn; split; reflexivity.
  - rewrite Nat.mod_1_r. cbn. split; reflexivity.
Qed.

End Watchers.

(** * More scenarios *)

Lemma scripted_leaves_channels (answers : nat -> forall X, Ext X -> X) sched :
  leaves_channels (scripted answers sched nobody).
Proof. split; intros; reflexivity. Defined.

Lemma scripted_timer_silent (answers : nat -> forall X, Ext X -> X) intrude :
  timer_silent (scripted answers no_timer intrude).
Proof. intros d st. reflexivity. Defined.

(** ** Setup *)

(** The second of three participants rejects the genesis: the third
    response is not read. *)
Lemma Setup_first_failure_witness :
  run (scripted (fun _ => one_peer_fails) fair nobody)
    (Setup (NewService_service 1) (fun _ => inl 0) Background [1; 2; 3])
    (0, NewService_chans)
  = ([Did (rpc_Call Background (NewGenesisMessage 0) [1; 2; 3])
        (inl [inl (NewGenesisMessage 0); inr (ErrExt 3); inl (NewGenesisMessage 0)])],
     Done (Some (Errorf "one request failed" (ErrExt 3))), (1, NewService_chans)).
Proof.
  apply (Setup_first_failure nat (scripted (fun _ => one_peer_fails) fair nobody)
           (NewService_service 1) (fun _ => inl 0) Background [1; 2; 3]
           (0, NewService_chans) 0
           [inl (NewGenesisMessage 0); inr (ErrExt 3); inl (NewGenesisMessage 0)]
           (1, NewService_chans)
           [inl (NewGenesisMessage 0)] (ErrExt 3) [inl (NewGenesisMessage 0)]);
    reflexivity.
Defined.

(** Every participant accepts the genesis. *)
Example Setup_accepted :
  run (scripted (fun _ => all_well) fair nobody)
    (Setup (NewService_service 1) (fun _ => inl 0) Background [1; 2; 3])
    (0, NewService_chans)
  = ([Did (rpc_Call Background (NewGenesisMessage 0) [1; 2; 3])
        (inl [inl (NewGenesisMessage 0); inl (NewGenesisMessage 0);
              inl (NewGenesisMessage 0)])],
     Done None, (1, NewService_chans)).
Proof. reflexivity. Qed.

(** ** A node that is not the leader *)

(** Node 2 waits for node 1: the timer fires, the view changes, and the
    node waits again until the service closes. *)
Lemma follower_never_leads_witness :
  rounds_started
    (trace (run (scripted (fun _ => all_well) (timer_at 2) (closing_after 3))
              (doRound (NewService_service 2) (WithCancel Background) 2)
              (0, started_chans)))
  = []
  /\ proposed
       (trace (run (scripted (fun _ => all_well) (timer_at 2) (closing_after 3))
                 (doRound (NewService_service 2) (WithCancel Background) 2)
                 (0, started_chans)))
     = []
  /\ phases
       (trace (run (scripted (fun _ => all_well) (timer_at 2) (closing_after 3))
                 (doRound (NewService_service 2) (WithCancel Background) 2)
                 (0, started_chans)))
     = []
  /\ trace (run (scripted (fun _ => all_well) (timer_at 2) (closing_after 3))
              (doRound (NewService_service 2) (WithCancel Background) 2)
              (0, started_chans))
     = Did getCurrentRoster (inl [1; 2; 3]) :: Did pbftsm_GetLeader (inl 1)
         :: trace (run (scripted (fun _ => all_well) (timer_at 2) (closing_after 3))
                     (doRound_wait (NewService_service 2) (WithCancel Background)
                        [1; 2; 3] 1 2)
                     (2, started_chans)).
Proof.
  apply (follower_never_leads nat
           (scripted (fun _ => all_well) (timer_at 2) (closing_after 3))
           (NewService_service 2) (WithCancel Background) 2 (0, started_chans)
           [1; 2; 3] (1, started_chans) 1 (2, started_chans));
    reflexivity.
Defined.

Example follower_view_change_then_closing :
  outcome (run (scripted (fun _ => all_well) (timer_at 2) (closing_after 3))
             (doRound (NewService_service 2) (WithCancel Background) 2)
             (0, started_chans))
  = Done None
  /\ logged (trace (run (scripted (fun _ => all_well) (timer_at 2) (closing_after 3))
                      (doRound (NewService_service 2) (WithCancel Background) 2)
                      (0, started_chans)))
     = ["round reached the timeout"; "view change successful"]
  /\ cancelled (trace (run (scripted (fun _ => all_well) (timer_at 2) (closing_after 3))
                         (doRound (NewService_service 2) (WithCancel Background) 2)
                         (0, started_chans)))
     = [round_ctx].
Proof. repeat split; reflexivity. Qed.

(** A block is stored while node 2 waits for node 1. *)
Lemma new_block_ends_follower_round_witness :
  outcome (run (scripted (fun _ => all_well) no_timer nobody)
             (doRound (NewService_service 2) (WithCancel Background) 1)
             (final (run (scripted (fun _ => all_well) no_timer nobody)
                       (chan (offer_events (mkEvent 5))) (0, started_chans))))
  = Done None
  /\ cancelled (trace (run (scripted (fun _ => all_well) no_timer nobody)
                         (doRound (NewService_service 2) (WithCancel Background) 1)
                         (final (run (scripted (fun _ => all_well) no_timer nobody)
                                   (chan (offer_events (mkEvent 5)))
                                   (0, started_chans)))))
     = [].
Proof.
  eapply (new_block_ends_follower_round nat
            (scripted (fun _ => all_well) no_timer nobody) (NewService_service 2)
            (scripted_leaves_channels _ _) (scripted_timer_silent _ _)
            (WithCancel Background) 0 (mkEvent 5) (0, started_chans));
    reflexivity.
Defined.

(** Without a block, a timeout or a closing request, the node waits. *)
Example follower_waits :
  outcome (run (scripted (fun _ => all_well) no_timer nobody)
             (doRound (NewService_service 2) (WithCancel Background) 1)
             (0, started_chans))
  = Stuck.
Proof. reflexivity. Qed.

(** ** What a leader proposes *)

(** The batch [7] is validated on the snapshot 0 and the tree staged
    with the root [01 02]. *)
Lemma doPBFT_proposes_what_it_prepared_witness :
  exists len h t,
    trace (run (scripted (fun _ => all_well) fair nobody)
             (doPBFT (NewService_service 1) round_ctx) (0, started_chans))
    = Did (pool_Gather round_ctx (mkPoolConfig 1)) [7]
        :: Did (ctx_Err round_ctx) None
        :: Did tree_Stage_enter (Some 0)
        :: Did (val_Validate 0 [7]) (inl (mkData [mkResult 7 true]))
        :: Did (tree_Stage_leave (Some None)) (inl [Byte.x01; Byte.x02])
        :: Did blocks_Len len
        :: Did (hashFactory_digest (add64 len 1) (Some (mkData [mkResult 7 true]))
                  (copy zeroDigest [Byte.x01; Byte.x02])) h
        :: t
    /\ match h with
       | inl digest =>
           exists answer t1,
             t = Did (pbftsm_Prepare
                        (mkBlock (add64 len 1) (Some (mkData [mkResult 7 true]))
                           (copy zeroDigest [Byte.x01; Byte.x02]) digest))
                   answer :: t1
             /\ proposed (trace (run (scripted (fun _ => all_well) fair nobody)
                                   (doPBFT (NewService_service 1) round_ctx)
                                   (0, started_chans)))
                = [mkBlock (add64 len 1) (Some (mkData [mkResult 7 true]))
                     (copy zeroDigest [Byte.x01; Byte.x02]) digest]
       | inr err =>
           t = []
           /\ outcome (run (scripted (fun _ => all_well) fair nobody)
                         (doPBFT (NewService_service 1) round_ctx) (0, started_chans))
              = Done (Some (Errorf "creating block failed" err))
       end.
Proof.
  apply (doPBFT_proposes_what_it_prepared nat
           (scripted (fun _ => all_well) fair nobody)
           (NewService_service 1) round_ctx (0, started_chans)
           [7] (1, started_chans) (2, started_chans) 0 (3, started_chans)
           (mkData [mkResult 7 true]) (4, started_chans)
           [Byte.x01; Byte.x02] (5, started_chans));
    reflexivity.
Defined.

(** The block proposed in that round: index 5, the validated batch, and
    the staged root padded to 32 bytes. *)
Example doPBFT_block_at_length_4 :
  map (fun b => (GetIndex b, GetData b, firstn 3 (GetTreeRoot b), length (GetTreeRoot b)))
    (proposed (trace (run (scripted (fun _ => all_well) fair nobody)
                        (doPBFT (NewService_service 1) round_ctx) (0, started_chans))))
  = [(5%Z, Some (mkData [mkResult 7 true]), [Byte.x01; Byte.x02; Byte.x00], 32)].
Proof. reflexivity. Qed.

(** ** The main loop *)

(** Node 1 leads one round; the service is closed meanwhile, which the
    second iteration finds out. *)
Lemma main_releases_contexts_witness :
  released (WithCancel Background)
    (trace (run (scripted (fun _ => all_well) fair (closing_after 10))
              (main (NewService_service 1) 1 2) (0, started_chans)))
  = length (filter is_iteration
              (trace (run (scripted (fun _ => all_well) fair (closing_after 10))
                        (main (NewService_service 1) 1 2) (0, started_chans)))).
Proof.
  apply (main_releases_contexts nat
           (scripted (fun _ => all_well) fair (closing_after 10))
           (NewService_service 1) 1 2 (0, started_chans) None).
  reflexivity.
Defined.

Example main_two_iterations :
  outcome (run (scripted (fun _ => all_well) fair (closing_after 10))
             (main (NewService_service 1) 1 2) (0, started_chans))
  = Done None
  /\ cancelled (trace (run (scripted (fun _ => all_well) fair (closing_after 10))
                         (main (NewService_service 1) 1 2) (0, started_chans)))
     = [round_ctx; WithCancel Background; WithCancel Background].
Proof. split; reflexivity. Qed.

Lemma main_nil_only_when_closing_witness :
  exists t0 a t1,
    trace (run (scripted (fun _ => all_well) fair (closing_after 10))
             (main (NewService_service 1) 1 2) (0, started_chans))
    = t0 ++ a :: t1
    /\ saw_closing a = true
    /\ (t1 = [] \/ t1 = [Did (cancel (WithCancel Background)) tt]).
Proof.
  apply main_nil_only_when_closing. reflexivity.
Defined.

(** ** Watchers and the feed of the blocks *)

Lemma Watch_holds_one_event_witness :
  exists t c st1,
    run (scripted (fun _ => all_well) fair nobody)
      (Watch (NewService_service 1) Background) (0, started_chans)
    = (t, Done c, st1)
    /\ outcome (run (scripted (fun _ => all_well) fair nobody)
                  (NotifyCallback (mkObserver c) (mkEvent 5)) st1) = Done tt
    /\ nth_error
         (watch_chs
            (snd (final (run (scripted (fun _ => all_well) fair nobody)
                           (NotifyCallback (mkObserver c) (mkEvent 5)) st1)))) c
       = Some [mkEvent 5]
    /\ outcome (run (scripted (fun _ => all_well) fair nobody)
                  (NotifyCallback (mkObserver c) (mkEvent 6))
                  (final (run (scripted (fun _ => all_well) fair nobody)
                            (NotifyCallback (mkObserver c) (mkEvent 5)) st1)))
       = Stuck.
Proof.
  apply Watch_holds_one_event. apply scripted_leaves_channels.
Defined.

(** Two links are stored; nobody takes the event of the first one from
    [events], so that the event of the second one is dropped. *)
Example watchBlocks_two_links :
  outcome (run (scripted (fun _ => two_links) fair nobody)
             (watchBlocks (NewService_service 1)) (0, started_chans))
  = Done tt
  /\ removed (trace (run (scripted (fun _ => two_links) fair nobody)
                       (watchBlocks (NewService_service 1)) (0, started_chans)))
     = [7; 8; 9]
  /\ offered (trace (run (scripted (fun _ => two_links) fair nobody)
                       (watchBlocks (NewService_service 1)) (0, started_chans)))
     = [mkEvent 5; mkEvent 6]
  /\ events (snd (final (run (scripted (fun _ => two_links) fair nobody)
                           (watchBlocks (NewService_service 1)) (0, started_chans))))
     = [mkEvent 5].
Proof. repeat split; reflexivity. Qed.
